(** * CustomMultiSelectPickList: the grouped dual-list selection engine

    A shallow embedding of
    [force-app/main/default/lwc/customMultiSelectPickList/customMultiSelectPickList.js].
    The component's fields become a record [State]; every method becomes a
    function [State -> State]; the [selection] events it dispatches are
    appended to a log kept in the state.  JavaScript arrays are lists,
    [Array.prototype.filter/map/some/every/includes] are [filter], [map],
    [existsb], [forallb] and [includes], and the insertion-ordered [Map] is
    an association list updated in place. *)

From Stdlib Require Import List String Bool ZArith Permutation.
Import ListNotations.
Open Scope string_scope.
Open Scope list_scope.

(** ** JavaScript values *)

Inductive jsval : Type :=
| JUndefined
| JNull
| JBool (b : bool)
| JNum (n : Z)
| JStr (s : string).

(** [a === b]; on these values it coincides with the SameValueZero
    comparison of [Set.has], [Map.get] and [Array.prototype.includes]. *)
Definition strict_eq (a b : jsval) : bool :=
  match a, b with
  | JUndefined, JUndefined => true
  | JNull, JNull => true
  | JBool x, JBool y => Bool.eqb x y
  | JNum x, JNum y => Z.eqb x y
  | JStr x, JStr y => String.eqb x y
  | _, _ => false
  end.

(** ToBoolean. *)
Definition truthy (v : jsval) : bool :=
  match v with
  | JUndefined | JNull => false
  | JBool b => b
  | JNum n => negb (Z.eqb n 0)
  | JStr s => negb (String.eqb s "")
  end.

(** [a || b] *)
Definition js_or (a b : jsval) : jsval := if truthy a then a else b.

(** A plain object: its own properties, looked up by name. *)
Definition jsobj : Type := list (string * jsval).

Fixpoint get (o : jsobj) (k : string) : jsval :=
  match o with
  | [] => JUndefined
  | (k', v) :: o' => if String.eqb k' k then v else get o' k
  end.

(** [l.includes(v)], also [new Set(l).has(v)]. *)
Definition includes (l : list jsval) (v : jsval) : bool :=
  existsb (strict_eq v) l.

(** ** The insertion-ordered [Map] *)

Section JsMap.
Context {V : Type}.

Definition jsmap : Type := list (jsval * V).

Fixpoint jsmap_get (m : jsmap) (k : jsval) : option V :=
  match m with
  | [] => None
  | (k', v) :: m' => if strict_eq k' k then Some v else jsmap_get m' k
  end.

Definition jsmap_has (m : jsmap) (k : jsval) : bool :=
  match jsmap_get m k with Some _ => true | None => false end.

(** [m.set(k, v)]: an existing key keeps its position. *)
Fixpoint jsmap_set (m : jsmap) (k : jsval) (v : V) : jsmap :=
  match m with
  | [] => [(k, v)]
  | (k', v') :: m' =>
      if strict_eq k' k then (k', v) :: m' else (k', v') :: jsmap_set m' k v
  end.
End JsMap.
Arguments jsmap V : clear implicits.

(** ** The component's data *)

(** An entry of an available group: [{ name, id, isSelected }]. *)
Record Item : Type := mkItem {
  name : jsval;
  id : jsval;
  isSelected : bool
}.

(** An entry of [selectedItems] and of an event's payload: [{ name, id }]. *)
Record SelectedItem : Type := mkSelectedItem {
  sel_name : jsval;
  sel_id : jsval
}.

(** An entry of [processedData]. *)
Record Group : Type := mkGroup {
  groupName : jsval;
  items : list Item;
  isExpanded : bool;
  isAllSelected : bool;
  toggleIcon : string;
  itemsClass : string
}.

(** An entry of [selectedGroupsData]. *)
Record SelectedGroup : Type := mkSelectedGroup {
  sg_groupName : jsval;
  sg_items : list SelectedItem;
  sg_isExpanded : bool;
  sg_toggleIcon : string;
  sg_itemsClass : string
}.

Definition icon_down : string := "▼".
Definition icon_up : string := "▲".

(** The fields of the component, and [dispatched], the payloads
    ([detail.selectedRecords]) of the [selection] events dispatched so far,
    oldest first. *)
Record State : Type := mkState {
  groupBy : option string;
  pickValues : option string;
  _preSelectedRecords : list jsobj;
  processedData : list Group;
  selectedItems : list SelectedItem;
  selectedGroupsData : list SelectedGroup;
  tempSelectedItems : list jsval;
  tempChosenItems : list jsval;
  isLoading : bool;
  error : option jsval;
  dispatched : list (list SelectedItem)
}.

(** A configured field name is used when it is a non-empty string. *)
Definition configured (f : option string) : option string :=
  match f with
  | Some s => if String.eqb s "" then None else Some s
  | None => None
  end.

Definition set_preSelectedRecords (v : list jsobj) (s : State) : State :=
  mkState (groupBy s) (pickValues s) v (processedData s) (selectedItems s)
    (selectedGroupsData s) (tempSelectedItems s) (tempChosenItems s)
    (isLoading s) (error s) (dispatched s).

Definition set_processedData (v : list Group) (s : State) : State :=
  mkState (groupBy s) (pickValues s) (_preSelectedRecords s) v (selectedItems s)
    (selectedGroupsData s) (tempSelectedItems s) (tempChosenItems s)
    (isLoading s) (error s) (dispatched s).

Definition set_selectedItems (v : list SelectedItem) (s : State) : State :=
  mkState (groupBy s) (pickValues s) (_preSelectedRecords s) (processedData s) v
    (selectedGroupsData s) (tempSelectedItems s) (tempChosenItems s)
    (isLoading s) (error s) (dispatched s).

Definition set_selectedGroupsData (v : list SelectedGroup) (s : State) : State :=
  mkState (groupBy s) (pickValues s) (_preSelectedRecords s) (processedData s)
    (selectedItems s) v (tempSelectedItems s) (tempChosenItems s)
    (isLoading s) (error s) (dispatched s).

Definition set_tempSelectedItems (v : list jsval) (s : State) : State :=
  mkState (groupBy s) (pickValues s) (_preSelectedRecords s) (processedData s)
    (selectedItems s) (selectedGroupsData s) v (tempChosenItems s)
    (isLoading s) (error s) (dispatched s).

Definition set_tempChosenItems (v : list jsval) (s : State) : State :=
  mkState (groupBy s) (pickValues s) (_preSelectedRecords s) (processedData s)
    (selectedItems s) (selectedGroupsData s) (tempSelectedItems s) v
    (isLoading s) (error s) (dispatched s).

Definition set_isLoading (v : bool) (s : State) : State :=
  mkState (groupBy s) (pickValues s) (_preSelectedRecords s) (processedData s)
    (selectedItems s) (selectedGroupsData s) (tempSelectedItems s)
    (tempChosenItems s) v (error s) (dispatched s).

Definition set_error (v : option jsval) (s : State) : State :=
  mkState (groupBy s) (pickValues s) (_preSelectedRecords s) (processedData s)
    (selectedItems s) (selectedGroupsData s) (tempSelectedItems s)
    (tempChosenItems s) (isLoading s) v (dispatched s).

Definition set_dispatched (v : list (list SelectedItem)) (s : State) : State :=
  mkState (groupBy s) (pickValues s) (_preSelectedRecords s) (processedData s)
    (selectedItems s) (selectedGroupsData s) (tempSelectedItems s)
    (tempChosenItems s) (isLoading s) (error s) v.

(** The component as constructed, with its two configuration properties. *)
Definition initial (gb pv : option string) : State :=
  mkState gb pv [] [] [] [] [] [] true None [].

(** Spread-and-override helpers for the object literals of the source. *)
Definition with_isSelected (b : bool) (i : Item) : Item :=
  mkItem (name i) (id i) b.

Definition with_items (its : list Item) (all : bool) (g : Group) : Group :=
  mkGroup (groupName g) its (isExpanded g) all (toggleIcon g) (itemsClass g).

Definition to_selected (i : Item) : SelectedItem :=
  mkSelectedItem (name i) (id i).

(** [this.selectedItems.some(si => si.id === v)] *)
Definition is_chosen (sel : list SelectedItem) (v : jsval) : bool :=
  existsb (fun si => strict_eq (sel_id si) v) sel.

(** ** processQueryResults *)

Definition groupNameOf (gb : option string) (record : jsobj) : jsval :=
  match configured gb with
  | Some f => js_or (get record f) (JStr "Unassigned")
  | None => JStr "Default Group"
  end.

Definition displayValueOf (pv : option string) (record : jsobj) : jsval :=
  match configured pv with
  | Some f => get record f
  | None => js_or (get record "Name") (get record "Id")
  end.

(** One turn of [data.forEach] on the [groupMap]. *)
Definition group_record (gb pv : option string)
    (groupMap : jsmap (list Item)) (record : jsobj) : jsmap (list Item) :=
  let groupName := groupNameOf gb record in
  let displayValue := displayValueOf pv record in
  let recordId := get record "Id" in
  if negb (truthy recordId) then groupMap
  else
    let groupMap1 :=
      if negb (jsmap_has groupMap groupName)
      then jsmap_set groupMap groupName []
      else groupMap in
    match jsmap_get groupMap1 groupName with
    | Some arr =>
        jsmap_set groupMap1 groupName (arr ++ [mkItem displayValue recordId false])
    | None => groupMap1
    end.

Definition new_group (e : jsval * list Item) : Group :=
  mkGroup (fst e) (snd e) false false icon_down "items-list collapsed".

(** [data] is [None] when it is missing or not an array. *)
Definition processQueryResults (data : option (list jsobj)) (s : State) : State :=
  match data with
  | None => set_processedData [] s
  | Some records =>
      let groupMap := fold_left (group_record (groupBy s) (pickValues s)) records [] in
      set_processedData (map new_group groupMap) s
  end.

(** ** updateSelectedGroupsData *)

Definition selectedInGroup (sel : list SelectedItem) (g : Group) : list Item :=
  filter (fun item => is_chosen sel (id item)) (items g).

Definition chosen_entry (sel : list SelectedItem) (g : Group) : SelectedGroup :=
  mkSelectedGroup (groupName g) (map to_selected (selectedInGroup sel g))
    true icon_up "items-list expanded".

Definition groupsMap_step (sel : list SelectedItem)
    (groupsMap : jsmap SelectedGroup) (g : Group) : jsmap SelectedGroup :=
  if (0 <? List.length (selectedInGroup sel g))%nat
  then jsmap_set groupsMap (groupName g) (chosen_entry sel g)
  else groupsMap.

Definition updateSelectedGroupsData (s : State) : State :=
  let groupsMap := fold_left (groupsMap_step (selectedItems s)) (processedData s) [] in
  set_selectedGroupsData (map snd groupsMap) s.

(** ** restoreSelection *)

Definition restore_group (selectedIds : list jsval) (g : Group) : Group :=
  let updatedItems :=
    map (fun item => with_isSelected (includes selectedIds (id item)) item) (items g) in
  let allSelected :=
    (0 <? List.length updatedItems)%nat && forallb isSelected updatedItems in
  with_items updatedItems allSelected g.

Definition restoreSelection (s : State) : State :=
  match _preSelectedRecords s with
  | [] => s
  | pre =>
      let selectedIds := map (fun record => get record "id") pre in
      let s1 :=
        set_selectedItems
          (map (fun record => mkSelectedItem (get record "name") (get record "id")) pre) s in
      let s2 := set_processedData (map (restore_group selectedIds) (processedData s1)) s1 in
      updateSelectedGroupsData s2
  end.

(** ** wiredData *)

(** What the wire adapter hands over: [data] is the array of records when
    there is one, [error] the failure when there is one. *)
Record WireResult : Type := mkWire {
  w_error : option jsval;
  w_data : option (list jsobj)
}.

Definition wiredData (w : WireResult) (s : State) : State :=
  match w_data w with
  | Some data =>
      let s1 := processQueryResults (Some data) (set_error None (set_isLoading false s)) in
      if (0 <? List.length (_preSelectedRecords s1))%nat then restoreSelection s1 else s1
  | None =>
      match w_error w with
      | Some e => set_processedData [] (set_error (Some e) (set_isLoading false s))
      | None => set_isLoading true s
      end
  end.

(** ** emitSelectionEvent *)

Definition emitSelectionEvent (s : State) : State :=
  set_dispatched
    (dispatched s ++ [map (fun i => mkSelectedItem (sel_name i) (sel_id i)) (selectedItems s)])
    s.

(** ** The [selectedRecords] property and [setSelectedRecords] *)

(** [value || []]: [None] is a missing or null argument. *)
Definition or_empty (value : option (list jsobj)) : list jsobj :=
  match value with Some l => l | None => [] end.

Definition set_selectedRecords (value : option (list jsobj)) (s : State) : State :=
  let s1 := set_preSelectedRecords (or_empty value) s in
  if (0 <? List.length (processedData s1))%nat && (0 <? List.length (_preSelectedRecords s1))%nat
  then restoreSelection s1 else s1.

Definition setSelectedRecords (records : option (list jsobj)) (s : State) : State :=
  let s1 := set_preSelectedRecords (or_empty records) s in
  if (0 <? List.length (processedData s1))%nat then restoreSelection s1 else s1.

Definition getSelectedRecords (s : State) : list SelectedItem := selectedItems s.

(** ** View-only handlers *)

Definition flip_expanded (g : Group) : Group :=
  let e := negb (isExpanded g) in
  mkGroup (groupName g) (items g) e (isAllSelected g)
    (if e then icon_up else icon_down)
    (if e then "items-list expanded" else "items-list collapsed").

Definition toggleGroup (group : jsval) (s : State) : State :=
  set_processedData
    (map (fun g => if strict_eq (groupName g) group then flip_expanded g else g)
       (processedData s)) s.

Definition flip_sg_expanded (g : SelectedGroup) : SelectedGroup :=
  let e := negb (sg_isExpanded g) in
  mkSelectedGroup (sg_groupName g) (sg_items g) e
    (if e then icon_up else icon_down)
    (if e then "items-list expanded" else "items-list collapsed").

Definition toggleSelectedGroup (group : jsval) (s : State) : State :=
  set_selectedGroupsData
    (map (fun g => if strict_eq (sg_groupName g) group then flip_sg_expanded g else g)
       (selectedGroupsData s)) s.

(** ** handleGroupSelect *)

(** One turn of [this.processedData.forEach]; the pair carries
    [this.selectedItems] and [updatedData]. *)
Definition groupSelect_step (group : jsval) (isChecked : bool)
    (acc : list SelectedItem * list Group) (g : Group)
    : list SelectedItem * list Group :=
  let sel := fst acc in
  let updatedData := snd acc in
  if strict_eq (groupName g) group then
    let updatedItems := map (with_isSelected isChecked) (items g) in
    let sel' :=
      if isChecked then
        sel ++ map to_selected
                 (filter (fun item => negb (is_chosen sel (id item))) updatedItems)
      else
        let itemsToRemove := map id updatedItems in
        filter (fun item => negb (includes itemsToRemove (sel_id item))) sel in
    (sel', updatedData ++ [with_items updatedItems isChecked g])
  else (sel, updatedData ++ [g]).

Definition handleGroupSelect (group : jsval) (isChecked : bool) (s : State) : State :=
  let r := fold_left (groupSelect_step group isChecked) (processedData s)
             (selectedItems s, []) in
  emitSelectionEvent
    (updateSelectedGroupsData
       (set_processedData (snd r) (set_selectedItems (fst r) s))).

(** ** Staging: handleItemSelect and selectChosenItem *)

Definition handleItemSelect (itemId : jsval) (isChecked : bool) (s : State) : State :=
  if isChecked then
    if negb (includes (tempSelectedItems s) itemId)
    then set_tempSelectedItems (tempSelectedItems s ++ [itemId]) s
    else s
  else
    set_tempSelectedItems
      (filter (fun i => negb (strict_eq i itemId)) (tempSelectedItems s)) s.

Definition selectChosenItem (itemId : jsval) (s : State) : State :=
  if includes (tempChosenItems s) itemId
  then set_tempChosenItems
         (filter (fun i => negb (strict_eq i itemId)) (tempChosenItems s)) s
  else set_tempChosenItems (tempChosenItems s ++ [itemId]) s.

(** ** moveSelectedToChosen *)

(** The [id -> item] index built from [processedData]. *)
Definition build_idToItem (data : list Group) : jsmap Item :=
  fold_left
    (fun m g => fold_left (fun m' item => jsmap_set m' (id item) item) (items g) m)
    data [].

Fixpoint somes {A : Type} (l : list (option A)) : list A :=
  match l with
  | [] => []
  | Some a :: l' => a :: somes l'
  | None :: l' => somes l'
  end.

(** [recompute_all f g]: map [f] over the items, then
    [isAllSelected = updatedItems.every(item => item.isSelected)]. *)
Definition recompute_all (f : Item -> Item) (g : Group) : Group :=
  let updatedItems := map f (items g) in
  with_items updatedItems (forallb isSelected updatedItems) g.

Definition moveSelectedToChosen (s : State) : State :=
  match tempSelectedItems s with
  | [] => s
  | temp =>
      let idToItem := build_idToItem (processedData s) in
      let existingIds := map sel_id (selectedItems s) in
      let itemsToAdd :=
        map to_selected
          (somes
             (filter
                (fun i => match i with
                          | Some it => negb (includes existingIds (id it))
                          | None => false
                          end)
                (map (jsmap_get idToItem) temp))) in
      let s1 := set_selectedItems (selectedItems s ++ itemsToAdd) s in
      let updatedData :=
        map (recompute_all
               (fun item => if includes temp (id item)
                            then with_isSelected true item else item))
          (processedData s1) in
      let s2 := set_processedData updatedData s1 in
      let s3 := set_tempSelectedItems [] s2 in
      emitSelectionEvent (updateSelectedGroupsData s3)
  end.

(** ** moveChosenToAvailable *)

Definition moveChosenToAvailable (s : State) : State :=
  match tempChosenItems s with
  | [] => s
  | temp =>
      let s1 :=
        set_selectedItems
          (filter (fun item => negb (includes temp (sel_id item))) (selectedItems s)) s in
      let updatedData :=
        map (recompute_all
               (fun item => if includes temp (id item)
                            then with_isSelected false item else item))
          (processedData s1) in
      let s2 := set_processedData updatedData s1 in
      let s3 := set_tempChosenItems [] s2 in
      emitSelectionEvent (updateSelectedGroupsData s3)
  end.

(** ** removeItem and removeGroup *)

Definition removeItem (itemIdToRemove : jsval) (s : State) : State :=
  let s1 :=
    set_selectedItems
      (filter (fun item => negb (strict_eq (sel_id item) itemIdToRemove))
         (selectedItems s)) s in
  let updatedData :=
    map (recompute_all
           (fun item => if strict_eq (id item) itemIdToRemove
                        then with_isSelected false item else item))
      (processedData s1) in
  emitSelectionEvent (updateSelectedGroupsData (set_processedData updatedData s1)).

Definition removeGroup_step (groupToRemove : jsval)
    (acc : list SelectedItem * list Group) (g : Group)
    : list SelectedItem * list Group :=
  let sel := fst acc in
  let updatedData := snd acc in
  if strict_eq (groupName g) groupToRemove then
    let itemsToRemove := map id (items g) in
    let sel' := filter (fun item => negb (includes itemsToRemove (sel_id item))) sel in
    let updatedItems := map (with_isSelected false) (items g) in
    (sel', updatedData ++ [with_items updatedItems false g])
  else (sel, updatedData ++ [g]).

Definition removeGroup (groupToRemove : jsval) (s : State) : State :=
  let r := fold_left (removeGroup_step groupToRemove) (processedData s)
             (selectedItems s, []) in
  emitSelectionEvent
    (updateSelectedGroupsData
       (set_processedData (snd r) (set_selectedItems (fst r) s))).

(** ** resetSelections *)

Definition resetSelections (s : State) : State :=
  let s1 :=
    set_preSelectedRecords []
      (set_tempChosenItems []
         (set_tempSelectedItems []
            (set_selectedGroupsData [] (set_selectedItems [] s)))) in
  let updatedData :=
    map (fun g => with_items (map (with_isSelected false) (items g)) false g)
      (processedData s1) in
  emitSelectionEvent (set_processedData updatedData s1).

(** ** Runs of the component *)

(** Everything that can happen to the component: the wire adapter
    delivering, the user acting, the parent calling the public API. *)
Inductive Op : Type :=
| OpWired (w : WireResult)
| OpSetProperty (value : option (list jsobj))
| OpSetSelectedRecords (records : option (list jsobj))
| OpToggleGroup (group : jsval)
| OpToggleSelectedGroup (group : jsval)
| OpGroupSelect (group : jsval) (isChecked : bool)
| OpItemSelect (itemId : jsval) (isChecked : bool)
| OpMoveToChosen
| OpMoveToAvailable
| OpSelectChosenItem (itemId : jsval)
| OpRemoveItem (itemId : jsval)
| OpRemoveGroup (group : jsval)
| OpReset.

Definition step (s : State) (o : Op) : State :=
  match o with
  | OpWired w => wiredData w s
  | OpSetProperty v => set_selectedRecords v s
  | OpSetSelectedRecords r => setSelectedRecords r s
  | OpToggleGroup g => toggleGroup g s
  | OpToggleSelectedGroup g => toggleSelectedGroup g s
  | OpGroupSelect g c => handleGroupSelect g c s
  | OpItemSelect i c => handleItemSelect i c s
  | OpMoveToChosen => moveSelectedToChosen s
  | OpMoveToAvailable => moveChosenToAvailable s
  | OpSelectChosenItem i => selectChosenItem i s
  | OpRemoveItem i => removeItem i s
  | OpRemoveGroup g => removeGroup g s
  | OpReset => resetSelections s
  end.

Definition run (s : State) (ops : list Op) : State := fold_left step ops s.

(** ** Scenarios

    The records, operations and states of the scenarios the properties are
    tried on. *)

Definition rec3 (i n c : string) : jsobj :=
  [("Id", JStr i); ("Name", JStr n); ("Cat", JStr c)].

Definition data_A : list jsobj :=
  [rec3 "1" "A" "X"; rec3 "2" "B" "X"; rec3 "3" "C" "Y"].

Definition load (d : list jsobj) : Op := OpWired (mkWire None (Some d)).

(** Scenario A: three records, grouped by [Cat]. *)
Definition state_A : State := run (initial (Some "Cat") None) [load data_A].

(** A state with a selection: ids 1 and 2 staged and committed. *)
Definition state_B : State :=
  run state_A [OpItemSelect (JStr "1") true; OpItemSelect (JStr "2") true; OpMoveToChosen].

(** The selection of scenario C: group Y chosen by its checkbox. *)
Definition state_Y : State := run state_A [OpGroupSelect (JStr "Y") true].

(** Id 1 chosen, then marked on the chosen side. *)
Definition state_pending : State := run state_B [OpSelectChosenItem (JStr "1")].

(** Id 1 staged, then other records delivered. *)
Definition state_stale : State :=
  run state_A [OpItemSelect (JStr "1") true; load [rec3 "3" "C" "Y"]].

Definition fetch_failed : Op := OpWired (mkWire (Some (JStr "Query failed")) None).

Definition pre_21 : list jsobj :=
  [[("id", JStr "2"); ("label", JStr "B")]; [("id", JStr "1"); ("label", JStr "A")]].

(** ** Notions used to state the properties *)

(** The ids of the selection, in order, and the ids of a group. *)
Definition chosen_ids (s : State) : list jsval := map sel_id (selectedItems s).

Definition group_ids (g : Group) : list jsval := map id (items g).

(** A delivery of the wire adapter that carries data. *)
Definition is_load (o : Op) : bool :=
  match o with
  | OpWired w => match w_data w with Some _ => true | None => false end
  | _ => false
  end.

Definition all_items (data : list Group) : list Item := flat_map items data.

(** [known data i]: some loaded item has id [i]. *)
Definition known (data : list Group) (i : jsval) : bool :=
  includes (map id (all_items data)) i.

Definition index_step (m : jsmap Item) (item : Item) : jsmap Item :=
  jsmap_set m (id item) item.

Definition keep_new (existingIds : list jsval) (i : option Item) : bool :=
  match i with
  | Some it => negb (includes existingIds (id it))
  | None => false
  end.

(** What one record does to the [groupMap]: its item goes to the end of the
    array of its group, and a group not seen yet goes to the end of the map. *)
Fixpoint groupMap_push (m : jsmap (list Item)) (k : jsval) (it : Item)
    : jsmap (list Item) :=
  match m with
  | [] => [(k, [it])]
  | (k', its) :: m' =>
      if strict_eq k' k then (k', its ++ [it]) :: m'
      else (k', its) :: groupMap_push m' k it
  end.

Definition item_of (pv : option string) (record : jsobj) : Item :=
  mkItem (displayValueOf pv record) (get record "Id") false.

Definition has_id (record : jsobj) : bool := truthy (get record "Id").

(** The (group, item) pairs of a map and of a list of groups. *)
Definition map_entries (m : jsmap (list Item)) : list (jsval * Item) :=
  flat_map (fun e => map (pair (fst e)) (snd e)) m.

Definition group_entries (gs : list Group) : list (jsval * Item) :=
  flat_map (fun g => map (pair (groupName g)) (items g)) gs.

Definition all_ids (data : list Group) : list jsval := flat_map group_ids data.

Definition shape (data : list Group) : list (jsval * list jsval) :=
  map (fun g => (groupName g, group_ids g)) data.

(** [updatedData] of [handleGroupSelect] and of [removeGroup]. *)
Definition mark_group (group : jsval) (b : bool) (g : Group) : Group :=
  if strict_eq (groupName g) group
  then with_items (map (with_isSelected b) (items g)) b g
  else g.

Definition in_group (group : jsval) (g : Group) : bool := strict_eq (groupName g) group.

(** The ids of the groups called [group]. *)
Definition ids_of_group (group : jsval) (gs : list Group) : list jsval :=
  all_ids (filter (in_group group) gs).

Definition new_in_group (sel : list SelectedItem) (g : Group) : list SelectedItem :=
  map to_selected (filter (fun item => negb (is_chosen sel (id item))) (items g)).

Fixpoint distinct (l : list jsval) : bool :=
  match l with
  | [] => true
  | a :: l' => negb (includes l' a) && distinct l'
  end.

(** The ids of a list handed to [setSelectedRecords], and the ids of the
    records of a delivery that have one. *)
Definition record_ids (l : list jsobj) : list jsval := map (fun record => get record "id") l.

Definition loaded_ids (data : list jsobj) : list jsval :=
  map (fun record => get record "Id") (filter has_id data).

(** The inputs of an operation name no id twice. *)
Definition op_distinct (o : Op) : bool :=
  match o with
  | OpWired w => match w_data w with Some data => distinct (loaded_ids data) | None => true end
  | OpSetProperty v => distinct (record_ids (or_empty v))
  | OpSetSelectedRecords r => distinct (record_ids (or_empty r))
  | _ => true
  end.

(** The operation replaces the selection by the list kept in
    [_preSelectedRecords] (it runs [restoreSelection] past its guard). *)
Definition restores (s : State) (o : Op) : bool :=
  match o with
  | OpWired w =>
      match w_data w with
      | Some _ => (0 <? List.length (_preSelectedRecords s))%nat
      | None => false
      end
  | OpSetProperty v =>
      (0 <? List.length (processedData s))%nat && (0 <? List.length (or_empty v))%nat
  | OpSetSelectedRecords r =>
      (0 <? List.length (processedData s))%nat && (0 <? List.length (or_empty r))%nat
  | _ => false
  end.

Record dup_free (s : State) : Prop := mk_dup_free {
  df_chosen : NoDup (chosen_ids s);
  df_temp : NoDup (tempSelectedItems s);
  df_items : NoDup (all_ids (processedData s));
  df_pre : NoDup (record_ids (_preSelectedRecords s))
}.


(** [isAllSelected] as the specification words it: the group is not empty
    and every member is chosen. *)
Definition allSelected_spec (sel : list SelectedItem) (g : Group) : bool :=
  (0 <? List.length (items g))%nat && forallb (fun it => is_chosen sel (id it)) (items g).

Definition rollup_okb (s : State) : bool :=
  forallb (fun g => Bool.eqb (isAllSelected g) (allSelected_spec (selectedItems s) g))
    (processedData s).

Definition rollup_ok (s : State) : Prop :=
  forall g, In g (processedData s) ->
    (isAllSelected g = true <->
     items g <> [] /\ forall it, In it (items g) -> In (id it) (chosen_ids s)).

(** The flags of a group agree with the selection. *)
Record group_sync (sel : list SelectedItem) (g : Group) : Prop := mk_group_sync {
  gs_nonempty : items g <> [];
  gs_all : isAllSelected g = forallb isSelected (items g);
  gs_flags : forall it, In it (items g) -> isSelected it = is_chosen sel (id it)
}.

Record in_sync (s : State) : Prop := mk_in_sync {
  sync_groups : forall g, In g (processedData s) -> group_sync (selectedItems s) g;
  sync_ids : NoDup (all_ids (processedData s))
}.

Definition fresh_entry (e : jsval * list Item) : Prop :=
  snd e <> [] /\ forall it, In it (snd e) -> isSelected it = false.

(** A delivery that carries data while a selection exists and nothing is
    pending for restoration. *)
Definition stale_load (s : State) (o : Op) : bool :=
  match o with
  | OpWired w =>
      match w_data w with
      | Some _ =>
          negb (0 <? List.length (_preSelectedRecords s))%nat
          && (0 <? List.length (selectedItems s))%nat
      | None => false
      end
  | _ => false
  end.

Definition load_distinct (o : Op) : bool :=
  match o with
  | OpWired w => match w_data w with Some data => distinct (loaded_ids data) | None => true end
  | _ => true
  end.

(** No delivery of [ops], run from [s], is stale, and every delivery
    carries distinct ids. *)
Fixpoint no_stale_load (s : State) (ops : list Op) : bool :=
  match ops with
  | [] => true
  | o :: ops' =>
      load_distinct o && negb (stale_load s o) && no_stale_load (step s o) ops'
  end.

(** The chosen groups as the specification words them: the selection
    partitioned by group, over the ids that have a loaded group, one entry
    per group and none of them empty. *)
Record view_ok (s : State) : Prop := mk_view_ok {
  view_nonempty : forall sg, In sg (selectedGroupsData s) -> sg_items sg <> [];
  view_names : NoDup (map sg_groupName (selectedGroupsData s));
  view_partition : forall k i,
    (exists sg, In sg (selectedGroupsData s) /\ sg_groupName sg = k
                /\ In i (map sel_id (sg_items sg)))
    <-> (In i (chosen_ids s)
         /\ exists g, In g (processedData s) /\ groupName g = k /\ In i (group_ids g))
}.

Definition names_ok (s : State) : Prop := NoDup (map groupName (processedData s)).

Definition has_chosen (sel : list SelectedItem) (g : Group) : bool :=
  (0 <? List.length (selectedInGroup sel g))%nat.

(** A failed fetch that finds chosen groups on display. *)
Definition stale_failure (s : State) (o : Op) : bool :=
  match o with
  | OpWired w =>
      match w_data w, w_error w with
      | None, Some _ => (0 <? List.length (selectedGroupsData s))%nat
      | _, _ => false
      end
  | _ => false
  end.

(** No delivery of [ops], run from [s], is stale, and no fetch fails over
    chosen groups. *)
Fixpoint no_stale_delivery (s : State) (ops : list Op) : bool :=
  match ops with
  | [] => true
  | o :: ops' =>
      negb (stale_load s o) && negb (stale_failure s o)
      && no_stale_delivery (step s o) ops'
  end.

Definition chosen_view (s : State) : list (jsval * list jsval) :=
  map (fun sg => (sg_groupName sg, map sel_id (sg_items sg))) (selectedGroupsData s).

(** ** The computed properties of the template *)

Definition hasSelectedItems (s : State) : bool :=
  (0 <? List.length (selectedItems s))%nat.

Definition selectedItemsDisplay (s : State) : list SelectedGroup := selectedGroupsData s.

Definition availableCount (s : State) : nat :=
  fold_left
    (fun count group =>
       count + List.length (filter (fun item => negb (isSelected item)) (items group)))
    (processedData s) 0.

Definition selectedCount (s : State) : nat := List.length (selectedItems s).

Definition isMoveRightDisabled (s : State) : bool :=
  Nat.eqb (List.length (tempSelectedItems s)) 0.

Definition isMoveLeftDisabled (s : State) : bool :=
  Nat.eqb (List.length (tempChosenItems s)) 0.

(** ** Notions used for the further properties *)

(** The operation reaches [emitSelectionEvent]. *)
Definition emits (s : State) (o : Op) : bool :=
  match o with
  | OpGroupSelect _ _ | OpRemoveItem _ | OpRemoveGroup _ | OpReset => true
  | OpMoveToChosen => negb (isMoveRightDisabled s)
  | OpMoveToAvailable => negb (isMoveLeftDisabled s)
  | _ => false
  end.

(** Clicking the chosen items [T] one after the other. *)
Definition mark_all (T : list jsval) (s : State) : State :=
  run s (map OpSelectChosenItem T).

(** The values of a list in the order of their first occurrence. *)
Fixpoint first_seen (l : list jsval) : list jsval :=
  match l with
  | [] => []
  | a :: l' => a :: filter (fun x => negb (strict_eq x a)) (first_seen l')
  end.

(** The items made of the records of [data] that have an id and go to the
    group [k], in the order of [data]. *)
Definition items_for (gb pv : option string) (data : list jsobj) (k : jsval) : list Item :=
  map (item_of pv)
    (filter (fun record => has_id record && strict_eq (groupNameOf gb record) k) data).

(** The array a [groupMap] holds for a key, empty when there is none. *)
Definition items_of (m : jsmap (list Item)) (k : jsval) : list Item :=
  match jsmap_get m k with Some arr => arr | None => [] end.

(** [groupMap.has(k) || groupMap.set(k, ...)] on the list of keys. *)
Definition add_key (keys : list jsval) (k : jsval) : list jsval :=
  if includes keys k then keys else keys ++ [k].

(** What the chosen side has to show for groups [pd] and selection [sel]:
    the groups with a chosen member, in the order of [pd], each with its
    chosen ids in the order of the group. *)
Definition derived_view (pd : list Group) (sel : list SelectedItem)
    : list (jsval * list jsval) :=
  map (fun g => (groupName g, filter (is_chosen sel) (group_ids g)))
    (filter (has_chosen sel) pd).

(** The operation runs [updateSelectedGroupsData] or empties the chosen side. *)
Definition recomputes (s : State) (o : Op) : bool := emits s o || restores s o.

(** Every flag of the available side is what the selection makes it: no
    group is empty, [isAllSelected] is the conjunction of the item flags,
    an item is flagged exactly when its id is chosen, and no id is loaded
    twice. *)
Definition flags_okb (s : State) : bool :=
  forallb
    (fun g =>
       (0 <? List.length (items g))%nat
       && Bool.eqb (isAllSelected g) (forallb isSelected (items g))
       && forallb (fun it => Bool.eqb (isSelected it) (is_chosen (selectedItems s) (id it)))
            (items g))
    (processedData s)
  && distinct (all_ids (processedData s)).

(** The toggle icon and the style class of a group say what [isExpanded]
    says. *)
Definition icons_match (g : Group) : Prop :=
  toggleIcon g = (if isExpanded g then icon_up else icon_down)
  /\ itemsClass g = (if isExpanded g then "items-list expanded" else "items-list collapsed").

Definition sg_icons_match (g : SelectedGroup) : Prop :=
  sg_toggleIcon g = (if sg_isExpanded g then icon_up else icon_down)
  /\ sg_itemsClass g
     = (if sg_isExpanded g then "items-list expanded" else "items-list collapsed").

Definition icons_ok (s : State) : Prop :=
  Forall icons_match (processedData s) /\ Forall sg_icons_match (selectedGroupsData s).

(** Three records as a query selecting [Id], [Name], [Category] and [Title]
    can return them: a field whose value is null is not on the record.
    Record 1 has no category and no title, record 2 no name, record 3 no
    id. *)
Definition data_titles : list jsobj :=
  [[("Id", JStr "1"); ("Name", JStr "A")];
   [("Id", JStr "2"); ("Cat", JStr "X"); ("Title", JStr "Boss")];
   [("Name", JStr "C"); ("Cat", JStr "X"); ("Title", JStr "Clerk")]].

(** What the two sides show: name, ids and rollup of every group. *)
Definition available_view (s : State) : list (jsval * list jsval * bool) :=
  map (fun g => (groupName g, group_ids g, isAllSelected g)) (processedData s).

(** * Properties *)

(** ** Equality, membership and the [Map] *)

Lemma strict_eq_true (a b : jsval) : strict_eq a b = true <-> a = b.
Proof.
  destruct a, b; simpl; split; intro H; try congruence; try reflexivity.
  - apply Bool.eqb_prop in H. now subst.
  - inversion H; subst. apply Bool.eqb_reflx.
  - apply Z.eqb_eq in H. now subst.
  - inversion H; subst. apply Z.eqb_refl.
  - apply String.eqb_eq in H. now subst.
  - inversion H; subst. apply String.eqb_refl.
Qed.

Lemma strict_eq_refl (a : jsval) : strict_eq a a = true.
Proof. now apply strict_eq_true. Qed.

Lemma strict_eq_false (a b : jsval) : strict_eq a b = false <-> a <> b.
Proof.
  split.
  - intros H E. apply strict_eq_true in E. congruence.
  - intro N. destruct (strict_eq a b) eqn:E; [|reflexivity].
    apply strict_eq_true in E. contradiction.
Qed.

Lemma strict_eq_sym (a b : jsval) : strict_eq a b = strict_eq b a.
Proof.
  destruct (strict_eq b a) eqn:E.
  - apply strict_eq_true in E. subst. apply strict_eq_refl.
  - apply strict_eq_false in E. apply strict_eq_false. congruence.
Qed.

Lemma includes_In (l : list jsval) (v : jsval) : includes l v = true <-> In v l.
Proof.
  unfold includes. rewrite existsb_exists. split.
  - intros [x [Hx E]]. apply strict_eq_true in E. now subst.
  - intro H. exists v. split; [assumption | apply strict_eq_refl].
Qed.

Lemma includes_false (l : list jsval) (v : jsval) : includes l v = false <-> ~ In v l.
Proof.
  rewrite <- includes_In. destruct (includes l v); split; congruence.
Qed.

Lemma is_chosen_includes (sel : list SelectedItem) (v : jsval) :
  is_chosen sel v = includes (map sel_id sel) v.
Proof.
  unfold is_chosen, includes. induction sel as [|a sel IH]; simpl; [reflexivity|].
  now rewrite IH, (strict_eq_sym (sel_id a) v).
Qed.

Lemma is_chosen_In (sel : list SelectedItem) (v : jsval) :
  is_chosen sel v = true <-> In v (map sel_id sel).
Proof. rewrite is_chosen_includes. apply includes_In. Qed.

Lemma jsmap_get_set {V : Type} (m : jsmap V) (k k' : jsval) (v : V) :
  jsmap_get (jsmap_set m k v) k' = if strict_eq k k' then Some v else jsmap_get m k'.
Proof.
  induction m as [|[k0 v0] m IH]; simpl.
  - reflexivity.
  - destruct (strict_eq k0 k) eqn:E0; simpl.
    + apply strict_eq_true in E0. subst k0.
      destruct (strict_eq k k'); reflexivity.
    + destruct (strict_eq k0 k') eqn:E1.
      * apply strict_eq_true in E1. subst k0.
        rewrite strict_eq_sym in E0. now rewrite E0.
      * apply IH.
Qed.

Lemma emitted_payload (l : list SelectedItem) :
  map (fun i => mkSelectedItem (sel_name i) (sel_id i)) l = l.
Proof.
  induction l as [|[n i] l IH]; simpl; [reflexivity | now rewrite IH].
Qed.

(** The methods that only recompute a view leave the selection alone. *)
Lemma selectedItems_update (s : State) :
  selectedItems (updateSelectedGroupsData s) = selectedItems s.
Proof. reflexivity. Qed.

Lemma selectedItems_emit (s : State) :
  selectedItems (emitSelectionEvent s) = selectedItems s.
Proof. reflexivity. Qed.

(** ** resetSelections *)

(** C7. Whatever the state before, [resetSelections] leaves no chosen item,
    no chosen group and no staged id, every group of the available side is
    still there with the same members but with [isAllSelected] and every
    [isSelected] false, and one more [selection] event has been dispatched,
    carrying the empty list. *)
Theorem resetSelections_clears_everything (s : State) :
  selectedItems (resetSelections s) = []
  /\ selectedGroupsData (resetSelections s) = []
  /\ tempSelectedItems (resetSelections s) = []
  /\ tempChosenItems (resetSelections s) = []
  /\ map groupName (processedData (resetSelections s)) = map groupName (processedData s)
  /\ map group_ids (processedData (resetSelections s)) = map group_ids (processedData s)
  /\ forallb (fun g => negb (isAllSelected g) && forallb (fun i => negb (isSelected i)) (items g))
       (processedData (resetSelections s)) = true
  /\ dispatched (resetSelections s) = dispatched s ++ [[]].
Proof.
  repeat split; try reflexivity.
  - unfold resetSelections. simpl. rewrite map_map. reflexivity.
  - unfold resetSelections. simpl. rewrite map_map. apply map_ext.
    intro g. unfold group_ids. simpl. rewrite map_map. reflexivity.
  - unfold resetSelections. simpl. rewrite forallb_forall.
    intros g Hg. apply in_map_iff in Hg. destruct Hg as [g0 [<- _]].
    simpl. rewrite forallb_forall. intros i Hi.
    apply in_map_iff in Hi. destruct Hi as [i0 [<- _]]. reflexivity.
Qed.

(** ** The fetch failure *)

(** C8. When the wire adapter delivers an error and no data, [wiredData]
    returns (it is a total function: nothing is thrown) the state in which
    [error] holds the failure, [isLoading] is off and [processedData] is
    empty; [selectedItems] and every other field are those of before, and
    no event is dispatched. *)
Theorem wiredData_error_keeps_selection (e : jsval) (s : State) :
  wiredData (mkWire (Some e) None) s =
    mkState (groupBy s) (pickValues s) (_preSelectedRecords s) []
      (selectedItems s) (selectedGroupsData s) (tempSelectedItems s)
      (tempChosenItems s) false (Some e) (dispatched s)
  /\ error (wiredData (mkWire (Some e) None) s) = Some e
  /\ selectedItems (wiredData (mkWire (Some e) None) s) = selectedItems s.
Proof. repeat split. Qed.

(** ** setSelectedRecords with nothing to restore *)

(** C10. [setSelectedRecords] called with a null or an empty sequence only
    empties [_preSelectedRecords]: the chosen items, the available groups
    with all their flags, the chosen groups and the event log are those of
    before, whether or not something was chosen. *)
Theorem setSelectedRecords_empty_keeps_selection (s : State) (records : option (list jsobj)) :
  or_empty records = [] ->
  setSelectedRecords records s = set_preSelectedRecords [] s
  /\ selectedItems (setSelectedRecords records s) = selectedItems s
  /\ processedData (setSelectedRecords records s) = processedData s
  /\ selectedGroupsData (setSelectedRecords records s) = selectedGroupsData s
  /\ dispatched (setSelectedRecords records s) = dispatched s.
Proof.
  intro H. unfold setSelectedRecords. rewrite H.
  assert (E : restoreSelection (set_preSelectedRecords [] s) = set_preSelectedRecords [] s)
    by reflexivity.
  rewrite E. destruct (0 <? _)%nat; repeat split.
Qed.

(** ** Restoring a selection supplied before the data *)

Lemma nothing_to_add_without_items (p : option Item -> bool) (temp : list jsval) :
  somes (filter p (map (@jsmap_get Item []) temp)) = [].
Proof.
  induction temp as [|t temp IH]; simpl; [reflexivity|].
  destruct (p None); simpl; exact IH.
Qed.

Lemma step_before_load (s : State) (o : Op) :
  is_load o = false ->
  processedData s = [] -> selectedItems s = [] ->
  processedData (step s o) = [] /\ selectedItems (step s o) = [].
Proof.
  intros Hl Hp Hs. destruct s as [gb pv pre pd sel sgd ts tc il er dp].
  simpl in Hp, Hs. subst pd sel.
  destruct o as [[we [d|]]| v | r | g | g | g c | i c | | | i | i | g | ]; simpl in *;
    try discriminate; try (split; reflexivity).
  - destruct we; split; reflexivity.
  - unfold handleItemSelect. simpl. destruct c; [destruct (negb _)|]; split; reflexivity.
  - unfold moveSelectedToChosen. simpl. destruct ts as [|t ts]; [split; reflexivity|].
    simpl. unfold build_idToItem. simpl.
    change (jsmap_get (@nil (jsval * Item)) t) with (@None Item).
    rewrite nothing_to_add_without_items.
    split; reflexivity.
  - unfold moveChosenToAvailable. simpl. destruct tc; split; reflexivity.
  - unfold selectChosenItem. simpl. destruct (includes tc i); split; reflexivity.
Qed.

Lemma run_before_load (ops : list Op) (s : State) :
  forallb (fun o => negb (is_load o)) ops = true ->
  processedData s = [] -> selectedItems s = [] ->
  processedData (run s ops) = [] /\ selectedItems (run s ops) = [].
Proof.
  revert s. induction ops as [|o ops IH]; intros s Hops Hp Hs; simpl.
  - now split.
  - simpl in Hops. apply andb_true_iff in Hops. destruct Hops as [Ho Hops].
    apply negb_true_iff in Ho.
    destruct (step_before_load s o Ho Hp Hs) as [Hp' Hs'].
    now apply IH.
Qed.

(** What [restoreSelection] makes of [_preSelectedRecords]. *)
Lemma restoreSelection_selectedItems (s : State) :
  _preSelectedRecords s <> [] ->
  selectedItems (restoreSelection s) =
    map (fun record => mkSelectedItem (get record "name") (get record "id"))
      (_preSelectedRecords s).
Proof.
  intro H. unfold restoreSelection. destruct (_preSelectedRecords s); [congruence|reflexivity].
Qed.

(** C5. Take the component as constructed and let anything happen to it
    except a delivery of data; call [setSelectedRecords X]; let the wire
    adapter deliver records.  Then [getSelectedRecords] returns the ids of
    [X], in the order of [X] (the theorem holds whatever the delivered
    records are, so in particular when their ids match those of [X]). *)
Theorem setSelectedRecords_then_load_roundtrip
    (gb pv : option string) (before : list Op) (X data : list jsobj) (e : option jsval) :
  forallb (fun o => negb (is_load o)) before = true ->
  map sel_id
    (getSelectedRecords
       (wiredData (mkWire e (Some data))
          (setSelectedRecords (Some X) (run (initial gb pv) before))))
  = map (fun record => get record "id") X.
Proof.
  intro Hb.
  destruct (run_before_load before (initial gb pv) Hb eq_refl eq_refl) as [Hp Hs].
  set (s0 := run (initial gb pv) before) in *.
  unfold setSelectedRecords. simpl. rewrite Hp. simpl.
  unfold getSelectedRecords, wiredData. simpl.
  destruct X as [|x X].
  - simpl. exact (f_equal (map sel_id) Hs).
  - cbn [List.length Nat.ltb Nat.leb]. rewrite restoreSelection_selectedItems by (simpl; congruence).
    simpl. rewrite map_map. reflexivity.
Qed.

Lemma setSelectedRecords_then_load_roundtrip_witness :
  forallb (fun o => negb (is_load o))
    [OpItemSelect (JStr "1") true; OpMoveToChosen; OpWired (mkWire None None)] = true
  /\ map sel_id
       (getSelectedRecords
          (wiredData (mkWire None (Some data_A))
             (setSelectedRecords (Some pre_21)
                (run (initial (Some "Cat") None)
                   [OpItemSelect (JStr "1") true; OpMoveToChosen; OpWired (mkWire None None)]))))
     = [JStr "2"; JStr "1"].
Proof.
  split; [reflexivity|].
  exact (setSelectedRecords_then_load_roundtrip (Some "Cat") None
           [OpItemSelect (JStr "1") true; OpMoveToChosen; OpWired (mkWire None None)]
           pre_21 data_A None eq_refl).
Defined.

Lemma setSelectedRecords_empty_witness :
  or_empty None = []
  /\ selectedItems state_B <> []
  /\ selectedItems (setSelectedRecords None state_B) = selectedItems state_B
  /\ processedData (setSelectedRecords None state_B) = processedData state_B.
Proof.
  split; [reflexivity|]. split; [discriminate|].
  pose proof (setSelectedRecords_empty_keeps_selection state_B None eq_refl) as H.
  split; [exact (proj1 (proj2 H)) | exact (proj1 (proj2 (proj2 H)))].
Defined.

(** ** removeItem *)

Lemma filter_out_not_In (i : jsval) (sel : list SelectedItem) :
  ~ In i (map sel_id (filter (fun item => negb (strict_eq (sel_id item) i)) sel)).
Proof.
  intro H. apply in_map_iff in H. destruct H as [x [E Hx]].
  apply filter_In in Hx. destruct Hx as [_ Hx]. subst i.
  rewrite strict_eq_refl in Hx. discriminate.
Qed.

(** [removeItem] does not take the id out of both the selection and
    [tempChosenItems] in every state: with id 1 chosen and then marked on
    the chosen side, 1 leaves [selectedItems] but stays in
    [tempChosenItems]. *)
Lemma removeItem_leaves_tempChosenItems :
  ~ (forall (s : State) (i : jsval),
       ~ In i (chosen_ids (removeItem i s))
       /\ ~ In i (tempChosenItems (removeItem i s))).
Proof.
  intro H. destruct (H state_pending (JStr "1")) as [_ H2].
  apply H2. vm_compute. left. reflexivity.
Qed.

(** [removeItem] as the code stands: it keeps of [selectedItems] exactly
    the entries whose id is another one, in their order, so the id is no
    longer chosen, and one [selection] event carries the new list; it never
    writes the staging arrays, so a marked id stays in [tempChosenItems]. *)
Theorem removeItem_removes_only_from_selection (s : State) (i : jsval) :
  selectedItems (removeItem i s)
    = filter (fun item => negb (strict_eq (sel_id item) i)) (selectedItems s)
  /\ ~ In i (chosen_ids (removeItem i s))
  /\ tempChosenItems (removeItem i s) = tempChosenItems s
  /\ tempSelectedItems (removeItem i s) = tempSelectedItems s
  /\ dispatched (removeItem i s) = dispatched s ++ [selectedItems (removeItem i s)].
Proof.
  split; [reflexivity|]. split; [apply filter_out_not_In|].
  split; [reflexivity|]. split; [reflexivity|].
  unfold removeItem, emitSelectionEvent. simpl. now rewrite emitted_payload.
Qed.

(** C1 at its failing input.  Ids 1 and 2 are chosen and 1 is marked on
    the chosen side; [removeItem] takes 1 out of the selection but leaves it
    in [tempChosenItems], so the button of the move to the left stays
    enabled with no chosen item marked.  The stale mark then acts on its
    own: 1 is committed again, only 2 is marked, and the move to the left
    takes both 1 and 2 out of the selection. *)
Theorem removeItem_keeps_removed_id_marked :
  chosen_ids state_pending = [JStr "1"; JStr "2"]
  /\ tempChosenItems state_pending = [JStr "1"]
  /\ chosen_ids (removeItem (JStr "1") state_pending) = [JStr "2"]
  /\ tempChosenItems (removeItem (JStr "1") state_pending) = [JStr "1"]
  /\ isMoveLeftDisabled (removeItem (JStr "1") state_pending) = false
  /\ chosen_ids
       (run state_pending
          [OpRemoveItem (JStr "1"); OpItemSelect (JStr "1") true; OpMoveToChosen])
     = [JStr "2"; JStr "1"]
  /\ tempChosenItems
       (run state_pending
          [OpRemoveItem (JStr "1"); OpItemSelect (JStr "1") true; OpMoveToChosen;
           OpSelectChosenItem (JStr "2")])
     = [JStr "1"; JStr "2"]
  /\ chosen_ids
       (run state_pending
          [OpRemoveItem (JStr "1"); OpItemSelect (JStr "1") true; OpMoveToChosen;
           OpSelectChosenItem (JStr "2"); OpMoveToAvailable])
     = [].
Proof. repeat split; vm_compute; reflexivity. Qed.

(** ** moveSelectedToChosen *)

Lemma build_idToItem_flat (data : list Group) (m0 : jsmap Item) :
  fold_left (fun m g => fold_left index_step (items g) m) data m0
  = fold_left index_step (all_items data) m0.
Proof.
  revert m0. induction data as [|g data IH]; intro m0; simpl; [reflexivity|].
  unfold all_items in *. simpl. now rewrite fold_left_app, IH.
Qed.

Lemma find_in_app {A : Type} (f : A -> bool) (l1 l2 : list A) :
  find f (l1 ++ l2) = match find f l1 with Some x => Some x | None => find f l2 end.
Proof.
  induction l1 as [|a l1 IH]; simpl; [reflexivity|].
  destruct (f a); [reflexivity | exact IH].
Qed.

Lemma index_get (its : list Item) (m0 : jsmap Item) (k : jsval) :
  jsmap_get (fold_left index_step its m0) k =
    match find (fun it => strict_eq (id it) k) (rev its) with
    | Some it => Some it
    | None => jsmap_get m0 k
    end.
Proof.
  revert m0. induction its as [|a its IH]; intro m0; simpl; [reflexivity|].
  rewrite IH. rewrite find_in_app.
  destruct (find _ (rev its)); [reflexivity|]. simpl.
  unfold index_step. rewrite jsmap_get_set.
  destruct (strict_eq (id a) k); reflexivity.
Qed.

Lemma find_none_known (its : list Item) (k : jsval) :
  find (fun it => strict_eq (id it) k) (rev its) = None ->
  includes (map id its) k = false.
Proof.
  intro H. apply includes_false. intro Hin. apply in_map_iff in Hin.
  destruct Hin as [it [E Hit]]. apply in_rev in Hit.
  apply (find_none _ _ H) in Hit. subst k. rewrite strict_eq_refl in Hit. discriminate.
Qed.

(** The lookup in the index returns an item of the loaded data that carries
    the id asked for, and fails exactly on the ids of no loaded item. *)
Lemma idToItem_get (data : list Group) (k : jsval) :
  match jsmap_get (build_idToItem data) k with
  | Some it => id it = k /\ In it (all_items data) /\ known data k = true
  | None => known data k = false
  end.
Proof.
  unfold build_idToItem.
  change (fun (m : jsmap Item) (g : Group) =>
            fold_left (fun m' item => jsmap_set m' (id item) item) (items g) m)
    with (fun (m : jsmap Item) (g : Group) => fold_left index_step (items g) m).
  rewrite build_idToItem_flat, index_get. unfold known.
  destruct (find _ (rev (all_items data))) as [it|] eqn:F.
  - apply find_some in F. destruct F as [Hin E].
    apply strict_eq_true in E. apply in_rev in Hin.
    split; [assumption|]. split; [assumption|].
    apply includes_In. subst k. now apply in_map.
  - simpl. now apply find_none_known.
Qed.

Lemma itemsToAdd_ids (data : list Group) (existingIds temp : list jsval) :
  map id (somes (filter (keep_new existingIds) (map (jsmap_get (build_idToItem data)) temp)))
  = filter (fun i => known data i && negb (includes existingIds i)) temp.
Proof.
  induction temp as [|t temp IH]; simpl; [reflexivity|].
  pose proof (idToItem_get data t) as G.
  destruct (jsmap_get (build_idToItem data) t) as [it|]; simpl.
  - destruct G as [E [_ K]]. rewrite K, E. simpl.
    destruct (negb (includes existingIds t)); simpl; [rewrite E|]; now rewrite IH.
  - rewrite G. simpl. exact IH.
Qed.

Lemma itemsToAdd_loaded (data : list Group) (existingIds temp : list jsval) :
  incl (somes (filter (keep_new existingIds) (map (jsmap_get (build_idToItem data)) temp)))
    (all_items data).
Proof.
  induction temp as [|t temp IH]; simpl; [apply incl_nil_l|].
  pose proof (idToItem_get data t) as G.
  destruct (jsmap_get (build_idToItem data) t) as [it|]; simpl; [|exact IH].
  destruct (negb (includes existingIds (id it))); simpl; [|exact IH].
  apply incl_cons; [apply G | exact IH].
Qed.

Lemma moveSelectedToChosen_selectedItems (s : State) :
  selectedItems (moveSelectedToChosen s) =
    selectedItems s ++
      map to_selected
        (somes (filter (keep_new (chosen_ids s))
                  (map (jsmap_get (build_idToItem (processedData s))) (tempSelectedItems s)))).
Proof.
  unfold moveSelectedToChosen. destruct (tempSelectedItems s) as [|t temp] eqn:E.
  - simpl. now rewrite app_nil_r.
  - reflexivity.
Qed.

Lemma commit_ids_and_register (s : State) :
  chosen_ids (moveSelectedToChosen s) =
    chosen_ids s ++
      filter (fun i => known (processedData s) i && negb (includes (chosen_ids s) i))
        (tempSelectedItems s)
  /\ tempSelectedItems (moveSelectedToChosen s) = [].
Proof.
  split.
  - unfold chosen_ids at 1. rewrite moveSelectedToChosen_selectedItems, map_app.
    f_equal. rewrite map_map.
    change (fun x : Item => sel_id (to_selected x)) with id.
    apply itemsToAdd_ids.
  - unfold moveSelectedToChosen. destruct (tempSelectedItems s) eqn:E; [exact E | reflexivity].
Qed.

(** C6, as stated, fails: id 1 is staged, then the data is loaded again
    without a record 1; the commit finds no item for 1 and appends nothing,
    although 1 is staged and not chosen. *)
Lemma moveSelectedToChosen_skips_unknown_ids :
  ~ (forall s : State,
       chosen_ids (moveSelectedToChosen s) =
         chosen_ids s ++
           filter (fun i => negb (includes (chosen_ids s) i)) (tempSelectedItems s)).
Proof.
  intro H. specialize (H state_stale). vm_compute in H. discriminate.
Qed.

(** C6, amended. [moveSelectedToChosen] appends to [selectedItems], in
    staging order, the staged ids that belong to a loaded item and are not
    chosen yet (each as the [{name, id}] of a loaded item), and empties
    [tempSelectedItems]; with something staged it dispatches one event with
    the new list, with nothing staged it returns the state as it is. *)
Theorem moveSelectedToChosen_appends_known_staged (s : State) :
  chosen_ids (moveSelectedToChosen s) =
    chosen_ids s ++
      filter (fun i => known (processedData s) i && negb (includes (chosen_ids s) i))
        (tempSelectedItems s)
  /\ (exists added, selectedItems (moveSelectedToChosen s) = selectedItems s ++ map to_selected added
                    /\ incl added (all_items (processedData s)))
  /\ tempSelectedItems (moveSelectedToChosen s) = []
  /\ match tempSelectedItems s with
     | [] => moveSelectedToChosen s = s
     | _ :: _ =>
         dispatched (moveSelectedToChosen s)
           = dispatched s ++ [selectedItems (moveSelectedToChosen s)]
     end.
Proof.
  split; [|split; [|split]].
  - apply commit_ids_and_register.
  - eexists. split; [apply moveSelectedToChosen_selectedItems | apply itemsToAdd_loaded].
  - apply commit_ids_and_register.
  - unfold moveSelectedToChosen. destruct (tempSelectedItems s) eqn:E; [reflexivity|].
    unfold emitSelectionEvent. simpl. now rewrite emitted_payload.
Qed.

(** ** processQueryResults *)

Lemma has_then_get_set_is_push (m : jsmap (list Item)) (k : jsval) (it : Item) :
  match jsmap_get (if negb (jsmap_has m k) then jsmap_set m k [] else m) k with
  | Some arr => jsmap_set (if negb (jsmap_has m k) then jsmap_set m k [] else m) k (arr ++ [it])
  | None => if negb (jsmap_has m k) then jsmap_set m k [] else m
  end = groupMap_push m k it.
Proof.
  induction m as [|[k' its] m IH].
  - simpl. now rewrite strict_eq_refl.
  - unfold jsmap_has in *. simpl. destruct (strict_eq k' k) eqn:E.
    + simpl. now rewrite E.
    + destruct (jsmap_get m k) as [arr|] eqn:G; simpl in *; rewrite E.
      * rewrite G. rewrite G in IH. now rewrite IH.
      * rewrite <- IH. now destruct (jsmap_get (jsmap_set m k []) k).
Qed.

Lemma group_record_push (gb pv : option string) (m : jsmap (list Item)) (r : jsobj) :
  group_record gb pv m r =
    if has_id r then groupMap_push m (groupNameOf gb r) (item_of pv r) else m.
Proof.
  unfold group_record, has_id. destruct (truthy (get r "Id")); simpl; [|reflexivity].
  apply has_then_get_set_is_push.
Qed.

Lemma group_entries_new (m : jsmap (list Item)) :
  group_entries (map new_group m) = map_entries m.
Proof.
  induction m as [|e m IH]; simpl; [reflexivity|]. now rewrite IH.
Qed.

Lemma push_entries (m : jsmap (list Item)) (k : jsval) (it : Item) :
  Permutation (map_entries (groupMap_push m k it)) (map_entries m ++ [(k, it)]).
Proof.
  induction m as [|[k' its] m IH]; simpl.
  - apply Permutation_refl.
  - destruct (strict_eq k' k) eqn:E; simpl.
    + apply strict_eq_true in E. subst k'.
      rewrite map_app, <- !app_assoc. simpl.
      apply Permutation_app_head. apply Permutation_app_comm with (l := [(k, it)]).
    + rewrite <- app_assoc. now apply Permutation_app_head.
Qed.

Lemma grouping_entries (gb pv : option string) (data : list jsobj) (m0 : jsmap (list Item)) :
  Permutation (map_entries (fold_left (group_record gb pv) data m0))
    (map_entries m0 ++ map (fun r => (groupNameOf gb r, item_of pv r)) (filter has_id data)).
Proof.
  revert m0. induction data as [|r data IH]; intro m0; simpl.
  - now rewrite app_nil_r.
  - eapply Permutation_trans; [apply IH|].
    rewrite group_record_push. destruct (has_id r); simpl; [|apply Permutation_refl].
    eapply Permutation_trans.
    + apply Permutation_app_tail. apply push_entries.
    + rewrite <- app_assoc. apply Permutation_refl.
Qed.

(** The label of an item can be absent: with a display field configured
    that the records do not have, the items get no label at all. *)
Lemma processQueryResults_label_can_be_absent :
  ~ (forall (s : State) (data : list jsobj) (g : Group) (it : Item),
       In g (processedData (processQueryResults (Some data) s)) ->
       In it (items g) -> name it <> JUndefined).
Proof.
  intro H.
  apply (H (initial (Some "Cat") (Some "Title")) data_A
           (mkGroup (JStr "Y") [mkItem JUndefined (JStr "3") false] false false
              icon_down "items-list collapsed")
           (mkItem JUndefined (JStr "3") false)).
  - vm_compute. right. left. reflexivity.
  - left. reflexivity.
  - reflexivity.
Qed.

(** The grouping as the code stands.  It keeps exactly the records that
    have an id, each once, unselected.  With a group field configured, a
    record goes to the group named by its value, or to ["Unassigned"] when
    that value is missing (with none configured, to ["Default Group"]).
    With no display field configured the label is [Name], or the id when
    [Name] is missing; with a display field configured the fallback is not
    reached and the label is the value of that field, whatever it is. *)
Theorem processQueryResults_groups_records_with_id (s : State) (data : list jsobj) :
  Permutation
    (group_entries (processedData (processQueryResults (Some data) s)))
    (map (fun r => (groupNameOf (groupBy s) r,
                    mkItem (displayValueOf (pickValues s) r) (get r "Id") false))
       (filter (fun r => truthy (get r "Id")) data))
  /\ (forall r,
        groupNameOf (groupBy s) r =
          match configured (groupBy s) with
          | Some f => if truthy (get r f) then get r f else JStr "Unassigned"
          | None => JStr "Default Group"
          end)
  /\ (forall r,
        displayValueOf (pickValues s) r =
          match configured (pickValues s) with
          | Some f => get r f
          | None => if truthy (get r "Name") then get r "Name" else get r "Id"
          end)
  /\ (forall r,
        configured (pickValues s) = None -> truthy (get r "Id") = true ->
        truthy (displayValueOf (pickValues s) r) = true).
Proof.
  split; [|split; [|split]].
  - unfold processQueryResults. simpl. rewrite group_entries_new.
    apply (grouping_entries (groupBy s) (pickValues s) data []).
  - intro r. unfold groupNameOf, js_or. reflexivity.
  - intro r. unfold displayValueOf, js_or. reflexivity.
  - intros r Hc Hid. unfold displayValueOf, js_or. rewrite Hc.
    destruct (truthy (get r "Name")) eqn:E; assumption.
Qed.

(** C9 at its failing input.  Group field [Cat] and display field [Title]
    are configured; record 1 has neither value, record 2 has both, record 3
    has no id.  Record 3 is dropped and record 1 goes to ["Unassigned"], as
    the claim says, but its label is absent: the fallback [|| record.Id]
    belongs to the branch taken when no display field is configured, unlike
    the fallback of the group name, which sits in the configured branch.
    With no display field configured the same records get [Name] as label,
    and the id when [Name] is missing too. *)
Theorem processQueryResults_configured_label_absent :
  map (fun g => (groupName g, map (fun it => (id it, name it)) (items g)))
    (processedData (processQueryResults (Some data_titles) (initial (Some "Cat") (Some "Title"))))
  = [(JStr "Unassigned", [(JStr "1", JUndefined)]);
     (JStr "X", [(JStr "2", JStr "Boss")])]
  /\ map (fun g => (groupName g, map (fun it => (id it, name it)) (items g)))
       (processedData (processQueryResults (Some data_titles) (initial (Some "Cat") None)))
     = [(JStr "Unassigned", [(JStr "1", JStr "A")]);
        (JStr "X", [(JStr "2", JStr "2")])]
  /\ exists g it,
       In g (processedData
               (processQueryResults (Some data_titles) (initial (Some "Cat") (Some "Title"))))
       /\ In it (items g) /\ truthy (id it) = true /\ name it = JUndefined.
Proof.
  split; [reflexivity|]. split; [reflexivity|].
  exists (mkGroup (JStr "Unassigned") [mkItem JUndefined (JStr "1") false]
            false false icon_down "items-list collapsed"),
         (mkItem JUndefined (JStr "1") false).
  split; [left; reflexivity|]. split; [left; reflexivity|]. split; reflexivity.
Qed.

(** ** The shape of the available side *)

Lemma all_ids_shape (data : list Group) : all_ids data = flat_map snd (shape data).
Proof.
  unfold all_ids, shape. induction data as [|g data IH]; simpl; [reflexivity|].
  now rewrite IH.
Qed.

Lemma names_shape (data : list Group) : map groupName data = map fst (shape data).
Proof. unfold shape. now rewrite map_map. Qed.

Lemma all_ids_items (data : list Group) : all_ids data = map id (all_items data).
Proof.
  unfold all_ids, all_items, group_ids.
  induction data as [|g data IH]; simpl; [reflexivity|]. now rewrite map_app, IH.
Qed.

Lemma shape_map (f : Group -> Group) (data : list Group) :
  (forall g, groupName (f g) = groupName g /\ group_ids (f g) = group_ids g) ->
  shape (map f data) = shape data.
Proof.
  intro H. unfold shape. rewrite map_map. apply map_ext.
  intro g. destruct (H g) as [-> ->]. reflexivity.
Qed.

Lemma ids_map_items (h : Item -> Item) (its : list Item) :
  (forall it, id (h it) = id it) -> map id (map h its) = map id its.
Proof. intro H. rewrite map_map. now apply map_ext. Qed.

Lemma shape_recompute_all (h : Item -> Item) (data : list Group) :
  (forall it, id (h it) = id it) ->
  shape (map (recompute_all h) data) = shape data.
Proof.
  intro H. apply shape_map. intro g. split; [reflexivity|].
  unfold group_ids. simpl. now apply ids_map_items.
Qed.

(** Flagging an item, or not, leaves its id alone. *)
Ltac flag_keeps_id :=
  let it := fresh "it" in
  intro it;
  match goal with
  | |- id (if ?c then _ else _) = _ => destruct c; reflexivity
  end.

Lemma shape_restore (selectedIds : list jsval) (data : list Group) :
  shape (map (restore_group selectedIds) data) = shape data.
Proof.
  apply shape_map. intro g. split; [reflexivity|].
  unfold group_ids. simpl. now apply ids_map_items.
Qed.

Lemma groupSelect_snd (group : jsval) (c : bool) (gs : list Group)
    (sel : list SelectedItem) (acc : list Group) :
  snd (fold_left (groupSelect_step group c) gs (sel, acc))
  = acc ++ map (mark_group group c) gs.
Proof.
  revert sel acc. induction gs as [|g gs IH]; intros sel acc; simpl.
  - now rewrite app_nil_r.
  - assert (E : groupSelect_step group c (sel, acc) g
                = (fst (groupSelect_step group c (sel, acc) g),
                   acc ++ [mark_group group c g])).
    { unfold groupSelect_step, mark_group. simpl.
      destruct (strict_eq (groupName g) group); reflexivity. }
    rewrite E, IH, <- app_assoc. reflexivity.
Qed.

Lemma removeGroup_is_unchecked (group : jsval) (acc : list SelectedItem * list Group)
    (g : Group) :
  removeGroup_step group acc g = groupSelect_step group false acc g.
Proof.
  unfold removeGroup_step, groupSelect_step.
  destruct (strict_eq (groupName g) group); [|reflexivity].
  rewrite ids_map_items by reflexivity. reflexivity.
Qed.

Lemma removeGroup_handleGroupSelect (group : jsval) (s : State) :
  removeGroup group s = handleGroupSelect group false s.
Proof.
  unfold removeGroup, handleGroupSelect.
  assert (E : forall gs acc,
             fold_left (removeGroup_step group) gs acc
             = fold_left (groupSelect_step group false) gs acc).
  { induction gs as [|g gs IH]; intro acc; simpl; [reflexivity|].
    now rewrite removeGroup_is_unchecked, IH. }
  now rewrite E.
Qed.

Lemma shape_mark_group (group : jsval) (b : bool) (data : list Group) :
  shape (map (mark_group group b) data) = shape data.
Proof.
  apply shape_map. intro g. unfold mark_group.
  destruct (strict_eq (groupName g) group); split; try reflexivity.
  unfold group_ids. simpl. now apply ids_map_items.
Qed.

Lemma processedData_handleGroupSelect (group : jsval) (c : bool) (s : State) :
  processedData (handleGroupSelect group c s) = map (mark_group group c) (processedData s).
Proof. unfold handleGroupSelect. simpl. now rewrite groupSelect_snd. Qed.

(** Apart from the deliveries of the wire adapter, no operation changes
    which groups there are or which ids they hold. *)
Lemma step_shape (s : State) (o : Op) :
  match o with OpWired _ => True | _ => shape (processedData (step s o)) = shape (processedData s) end.
Proof.
  destruct o as [w | v | r | g | g | g c | i c | | | i | i | g | ]; unfold step; trivial.
  - unfold set_selectedRecords. destruct (_ && _); [|reflexivity].
    unfold restoreSelection. destruct (_preSelectedRecords _); [reflexivity|].
    simpl. apply shape_restore.
  - unfold setSelectedRecords. destruct (0 <? _)%nat; [|reflexivity].
    unfold restoreSelection. destruct (_preSelectedRecords _); [reflexivity|].
    simpl. apply shape_restore.
  - apply shape_map. intro x. now destruct (strict_eq (groupName x) g).
  - rewrite processedData_handleGroupSelect. apply shape_mark_group.
  - unfold handleItemSelect. destruct c; [destruct (negb _)|]; reflexivity.
  - unfold moveSelectedToChosen. destruct (tempSelectedItems s); [reflexivity|].
    simpl. apply shape_recompute_all. flag_keeps_id.
  - unfold moveChosenToAvailable. destruct (tempChosenItems s); [reflexivity|].
    simpl. apply shape_recompute_all. flag_keeps_id.
  - unfold selectChosenItem. destruct (includes _ _); reflexivity.
  - unfold removeItem. simpl. apply shape_recompute_all. flag_keeps_id.
  - rewrite removeGroup_handleGroupSelect, processedData_handleGroupSelect.
    apply shape_mark_group.
  - unfold resetSelections. simpl. apply shape_map. intro x. split; [reflexivity|].
    unfold group_ids. simpl. now apply ids_map_items.
Qed.

(** ** What the group checkbox does to the selection *)

Lemma filter_filter {A : Type} (p q : A -> bool) (l : list A) :
  filter p (filter q l) = filter (fun x => q x && p x) l.
Proof.
  induction l as [|a l IH]; simpl; [reflexivity|].
  destruct (q a); simpl; [destruct (p a)|]; now rewrite IH.
Qed.

Lemma includes_app (l1 l2 : list jsval) (v : jsval) :
  includes (l1 ++ l2) v = includes l1 v || includes l2 v.
Proof. unfold includes. apply existsb_app. Qed.

Lemma groupSelect_step_other (group : jsval) (c : bool) (sel : list SelectedItem)
    (acc : list Group) (g : Group) :
  in_group group g = false ->
  groupSelect_step group c (sel, acc) g = (sel, acc ++ [g]).
Proof. unfold groupSelect_step, in_group. simpl. now intros ->. Qed.

Lemma groupSelect_step_unchecked (group : jsval) (sel : list SelectedItem)
    (acc : list Group) (g : Group) :
  in_group group g = true ->
  groupSelect_step group false (sel, acc) g =
    (filter (fun item => negb (includes (group_ids g) (sel_id item))) sel,
     acc ++ [with_items (map (with_isSelected false) (items g)) false g]).
Proof.
  unfold groupSelect_step, in_group. simpl. intros ->.
  rewrite ids_map_items by reflexivity. reflexivity.
Qed.

Lemma chosen_filter_flagged (sel : list SelectedItem) (c : bool) (its : list Item) :
  map to_selected
    (filter (fun item => negb (is_chosen sel (id item))) (map (with_isSelected c) its))
  = map to_selected (filter (fun item => negb (is_chosen sel (id item))) its).
Proof.
  induction its as [|a its IH]; simpl; [reflexivity|].
  destruct (negb (is_chosen sel (id a))); simpl; now rewrite IH.
Qed.

Lemma groupSelect_step_checked (group : jsval) (sel : list SelectedItem)
    (acc : list Group) (g : Group) :
  in_group group g = true ->
  groupSelect_step group true (sel, acc) g =
    (sel ++ new_in_group sel g,
     acc ++ [with_items (map (with_isSelected true) (items g)) true g]).
Proof.
  unfold groupSelect_step, in_group, new_in_group. simpl. intros ->.
  now rewrite chosen_filter_flagged.
Qed.

Lemma new_in_group_ids (sel : list SelectedItem) (g : Group) :
  map sel_id (new_in_group sel g)
  = filter (fun i => negb (includes (map sel_id sel) i)) (group_ids g).
Proof.
  unfold new_in_group, group_ids. induction (items g) as [|a its IH]; simpl; [reflexivity|].
  rewrite is_chosen_includes.
  destruct (negb (includes (map sel_id sel) (id a))); simpl; now rewrite IH.
Qed.

(** Unchecking keeps of the selection, in order, what is in no group of
    that name. *)
Lemma groupSelect_fst_unchecked (group : jsval) (gs : list Group)
    (sel : list SelectedItem) (acc : list Group) :
  fst (fold_left (groupSelect_step group false) gs (sel, acc))
  = filter (fun item => negb (includes (ids_of_group group gs) (sel_id item))) sel.
Proof.
  revert sel acc. induction gs as [|g gs IH]; intros sel acc; simpl.
  - symmetry. etransitivity; [|apply filter_true].
    apply filter_ext. reflexivity.
  - unfold ids_of_group in *. simpl. destruct (in_group group g) eqn:E.
    + rewrite groupSelect_step_unchecked by assumption. rewrite IH, filter_filter.
      apply filter_ext. intro a. unfold all_ids. simpl.
      rewrite includes_app. now destruct (includes (group_ids g) (sel_id a)).
    + rewrite groupSelect_step_other by assumption. apply IH.
Qed.

(** Checking appends, and what it appends was not chosen. *)
Lemma groupSelect_fst_checked (group : jsval) (gs : list Group)
    (sel : list SelectedItem) (acc : list Group) :
  exists added,
    fst (fold_left (groupSelect_step group true) gs (sel, acc)) = sel ++ added
    /\ (forall a, In a added ->
          ~ In (sel_id a) (map sel_id sel) /\ In (sel_id a) (ids_of_group group gs))
    /\ (forall i, In i (ids_of_group group gs) ->
          In i (map sel_id (sel ++ added))).
Proof.
  revert sel acc. induction gs as [|g gs IH]; intros sel acc; simpl.
  - exists []. rewrite app_nil_r. split; [reflexivity|].
    split; [intros a [] | intros i []].
  - unfold ids_of_group in *. simpl. destruct (in_group group g) eqn:E.
    + rewrite groupSelect_step_checked by assumption.
      destruct (IH (sel ++ new_in_group sel g)
                  (acc ++ [with_items (map (with_isSelected true) (items g)) true g]))
        as [added [Hf [Hnew Hall]]].
      exists (new_in_group sel g ++ added). rewrite Hf, <- app_assoc.
      split; [reflexivity|]. split.
      * intros a Ha. unfold all_ids. simpl. rewrite in_app_iff.
        apply in_app_or in Ha. destruct Ha as [Ha|Ha].
        -- apply (in_map sel_id) in Ha. rewrite new_in_group_ids in Ha.
           apply filter_In in Ha. destruct Ha as [Hg Hn].
           apply negb_true_iff, includes_false in Hn. now split; [|left].
        -- destruct (Hnew a Ha) as [Hn Hi]. split; [|now right].
           intro Hc. apply Hn. rewrite map_app. apply in_or_app. now left.
      * intros i Hi. unfold all_ids in Hi. simpl in Hi. apply in_app_or in Hi.
        destruct Hi as [Hi|Hi].
        -- rewrite app_assoc, map_app. apply in_or_app. left.
           rewrite map_app, new_in_group_ids. apply in_or_app.
           destruct (includes (map sel_id sel) i) eqn:Ei.
           ++ left. now apply includes_In.
           ++ right. apply filter_In. split; [assumption|]. now rewrite Ei.
        -- rewrite app_assoc. now apply Hall.
    + rewrite groupSelect_step_other by assumption. apply IH.
Qed.

Lemma kept_keys_NoDup {X K : Type} (key : X -> K) (keep : X -> bool) (xs : list X) :
  NoDup (map key xs) -> NoDup (map key (filter keep xs)).
Proof.
  induction xs as [|x xs IH]; simpl; intro H; [constructor|].
  inversion H as [|? ? Hn Hl]; subst. destruct (keep x); simpl; [|now apply IH].
  constructor; [|now apply IH].
  intro Hc. apply Hn. apply in_map_iff in Hc. destruct Hc as [y [E Hy]].
  apply filter_In in Hy. rewrite <- E. apply in_map. apply Hy.
Qed.

Lemma groupSelect_fst_NoDup (group : jsval) (c : bool) (gs : list Group)
    (sel : list SelectedItem) (acc : list Group) :
  NoDup (map sel_id sel) -> NoDup (all_ids gs) ->
  NoDup (map sel_id (fst (fold_left (groupSelect_step group c) gs (sel, acc)))).
Proof.
  destruct c.
  - revert sel acc. induction gs as [|g gs IH]; intros sel acc Hs Hg; simpl; [assumption|].
    unfold all_ids in Hg. simpl in Hg.
    pose proof (NoDup_app_remove_l _ _ Hg) as Hrest.
    pose proof (NoDup_app_remove_r _ _ Hg) as Hthis.
    destruct (in_group group g) eqn:E.
    + rewrite groupSelect_step_checked by assumption. apply IH; [|assumption].
      rewrite map_app, new_in_group_ids. apply NoDup_app.
      * assumption.
      * now apply NoDup_filter.
      * intros a Ha Hc. apply filter_In in Hc. destruct Hc as [_ Hc].
        apply negb_true_iff, includes_false in Hc. contradiction.
    + rewrite groupSelect_step_other by assumption. now apply IH.
  - intros Hs _. rewrite groupSelect_fst_unchecked. now apply kept_keys_NoDup.
Qed.

(** ** No id chosen twice *)

Lemma distinct_NoDup (l : list jsval) : distinct l = true <-> NoDup l.
Proof.
  induction l as [|a l IH]; simpl.
  - split; [constructor | reflexivity].
  - rewrite andb_true_iff, negb_true_iff, includes_false, IH. split.
    + intros [H1 H2]. now constructor.
    + intro H. inversion H; subst. now split.
Qed.

Lemma all_ids_entries (gs : list Group) :
  all_ids gs = map (fun e => id (snd e)) (group_entries gs).
Proof.
  unfold all_ids, group_entries, group_ids.
  induction gs as [|g gs IH]; simpl; [reflexivity|].
  now rewrite map_app, map_map, IH.
Qed.

Lemma load_all_ids (data : list jsobj) (s : State) :
  Permutation (all_ids (processedData (processQueryResults (Some data) s))) (loaded_ids data).
Proof.
  rewrite all_ids_entries. unfold processQueryResults. simpl. rewrite group_entries_new.
  eapply Permutation_trans.
  - apply Permutation_map. apply (grouping_entries (groupBy s) (pickValues s) data []).
  - simpl. rewrite map_map. apply Permutation_refl.
Qed.

Lemma all_ids_same_shape (gs gs' : list Group) :
  shape gs = shape gs' -> all_ids gs = all_ids gs'.
Proof. intro H. now rewrite !all_ids_shape, H. Qed.

Lemma restoreSelection_chosen (s : State) :
  _preSelectedRecords s <> [] ->
  chosen_ids (restoreSelection s) = record_ids (_preSelectedRecords s).
Proof.
  intro H. unfold chosen_ids. rewrite restoreSelection_selectedItems by assumption.
  unfold record_ids. now rewrite map_map.
Qed.

Lemma restoreSelection_rest (s : State) :
  tempSelectedItems (restoreSelection s) = tempSelectedItems s
  /\ tempChosenItems (restoreSelection s) = tempChosenItems s
  /\ _preSelectedRecords (restoreSelection s) = _preSelectedRecords s
  /\ shape (processedData (restoreSelection s)) = shape (processedData s)
  /\ dispatched (restoreSelection s) = dispatched s.
Proof.
  unfold restoreSelection. destruct (_preSelectedRecords s) eqn:E.
  - repeat split; assumption.
  - simpl. repeat split; try assumption. apply shape_restore.
Qed.

Lemma restoreSelection_dup_free (s : State) : dup_free s -> dup_free (restoreSelection s).
Proof.
  intros [Hc Ht Hi Hp].
  destruct (restoreSelection_rest s) as [Et [_ [Ep [Es _]]]].
  destruct (_preSelectedRecords s) as [|r pre] eqn:E.
  - unfold restoreSelection. rewrite E. constructor; try assumption. now rewrite E.
  - constructor.
    + rewrite restoreSelection_chosen by congruence. now rewrite E.
    + now rewrite Et.
    + now rewrite (all_ids_same_shape _ _ Es).
    + now rewrite Ep.
Qed.

Lemma length_pos_nonempty {A : Type} (l : list A) :
  (0 <? List.length l)%nat = true <-> l <> [].
Proof.
  destruct l; simpl; split; intro H;
    try reflexivity; try discriminate; exfalso; now apply H.
Qed.

Lemma wiredData_dup_free (w : WireResult) (s : State) :
  op_distinct (OpWired w) = true -> dup_free s -> dup_free (wiredData w s).
Proof.
  intros Hd [Hc Ht Hi Hp]. unfold wiredData. simpl in Hd.
  destruct (w_data w) as [data|].
  - apply distinct_NoDup in Hd.
    set (s0 := set_error None (set_isLoading false s)) in *.
    assert (D : dup_free (processQueryResults (Some data) s0)).
    { constructor; try assumption.
      eapply Permutation_NoDup; [apply Permutation_sym, load_all_ids | assumption]. }
    destruct (0 <? _)%nat; [now apply restoreSelection_dup_free | assumption].
  - destruct (w_error w); constructor; simpl; try assumption. constructor.
Qed.

Lemma moveSelectedToChosen_dup_free (s : State) :
  dup_free s -> dup_free (moveSelectedToChosen s).
Proof.
  intros [Hc Ht Hi Hp].
  destruct (commit_ids_and_register s) as [Ec Et].
  constructor.
  - rewrite Ec. apply NoDup_app; [assumption | now apply NoDup_filter |].
    intros a Ha Hf. apply filter_In in Hf. destruct Hf as [_ Hf].
    apply andb_true_iff in Hf. destruct Hf as [_ Hf].
    apply negb_true_iff, includes_false in Hf. contradiction.
  - rewrite Et. constructor.
  - rewrite (all_ids_same_shape _ _
               (step_shape s OpMoveToChosen
                : shape (processedData (moveSelectedToChosen s)) = _)).
    assumption.
  - unfold moveSelectedToChosen. destruct (tempSelectedItems s); assumption.
Qed.

Lemma step_all_ids (s : State) (o : Op) :
  match o with
  | OpWired _ => True
  | _ => all_ids (processedData (step s o)) = all_ids (processedData s)
  end.
Proof.
  pose proof (step_shape s o) as H.
  destruct o; trivial; now apply all_ids_same_shape.
Qed.

Lemma set_then_restore_dup_free (l : list jsobj) (guard : bool) (s : State) :
  distinct (record_ids l) = true -> dup_free s ->
  dup_free (if guard then restoreSelection (set_preSelectedRecords l s)
            else set_preSelectedRecords l s).
Proof.
  intros Hd [Hc Ht Hi Hp]. apply distinct_NoDup in Hd.
  assert (D : dup_free (set_preSelectedRecords l s)) by now constructor.
  destruct guard; [now apply restoreSelection_dup_free | assumption].
Qed.

Lemma handleGroupSelect_chosen (group : jsval) (c : bool) (s : State) :
  selectedItems (handleGroupSelect group c s)
  = fst (fold_left (groupSelect_step group c) (processedData s) (selectedItems s, [])).
Proof. reflexivity. Qed.

(** Every operation whose inputs name no id twice keeps the selection, the
    staged ids, the loaded ids and the pending pre-selection free of
    repetitions. *)
Lemma step_dup_free (s : State) (o : Op) :
  op_distinct o = true -> dup_free s -> dup_free (step s o).
Proof.
  intros Hd D. pose proof (step_all_ids s o) as Hi.
  destruct o as [w | v | r | g | g | g c | i c | | | i | i | g | ]; unfold step in *.
  - now apply wiredData_dup_free.
  - unfold set_selectedRecords. now apply set_then_restore_dup_free.
  - unfold setSelectedRecords. now apply set_then_restore_dup_free.
  - destruct D as [Hc Ht Hit Hp]. constructor; try assumption. now rewrite Hi.
  - destruct D as [Hc Ht Hit Hp]. now constructor.
  - destruct D as [Hc Ht Hit Hp]. constructor; try assumption; [|now rewrite Hi].
    unfold chosen_ids. rewrite handleGroupSelect_chosen.
    now apply groupSelect_fst_NoDup.
  - destruct D as [Hc Ht Hit Hp]. unfold handleItemSelect.
    destruct c; [destruct (negb (includes (tempSelectedItems s) i)) eqn:E|];
      constructor; simpl; try assumption.
    + apply negb_true_iff, includes_false in E.
      apply NoDup_app; [assumption | repeat constructor; intros [] |].
      intros a Ha [Hb|[]]. subst. contradiction.
    + now apply NoDup_filter.
  - now apply moveSelectedToChosen_dup_free.
  - destruct D as [Hc Ht Hit Hp]. constructor; try (now rewrite Hi);
      unfold moveChosenToAvailable in *; destruct (tempChosenItems s); try assumption.
    simpl. now apply kept_keys_NoDup.
  - destruct D as [Hc Ht Hit Hp]. unfold selectChosenItem.
    destruct (includes _ _); now constructor.
  - destruct D as [Hc Ht Hit Hp]. constructor; try assumption; [|now rewrite Hi].
    unfold removeItem. simpl. now apply kept_keys_NoDup.
  - destruct D as [Hc Ht Hit Hp]. constructor; try (now rewrite Hi);
      rewrite removeGroup_handleGroupSelect; try assumption.
    unfold chosen_ids. rewrite handleGroupSelect_chosen.
    now apply groupSelect_fst_NoDup.
  - destruct D as [Hc Ht Hit Hp]. constructor; try (now rewrite Hi); constructor.
Qed.

Lemma initial_dup_free (gb pv : option string) : dup_free (initial gb pv).
Proof. constructor; constructor. Qed.

Lemma run_dup_free (ops : list Op) (s : State) :
  forallb op_distinct ops = true -> dup_free s -> dup_free (run s ops).
Proof.
  revert s. induction ops as [|o ops IH]; intros s Hd D; simpl; [assumption|].
  simpl in Hd. apply andb_true_iff in Hd. destruct Hd as [Ho Hd].
  apply IH; [assumption|]. now apply step_dup_free.
Qed.

(** ** The order of the selection *)




Lemma restoreSelection_nothing (s : State) :
  _preSelectedRecords s = [] -> restoreSelection s = s.
Proof. intro H. unfold restoreSelection. now rewrite H. Qed.

Lemma length_zero_empty {A : Type} (l : list A) :
  (0 <? List.length l)%nat = false -> l = [].
Proof. destruct l; simpl; [reflexivity | discriminate]. Qed.



Lemma filter_nothing {A : Type} (p : A -> bool) (l : list A) :
  forallb (fun x => negb (p x)) l = true -> filter p l = [].
Proof.
  induction l as [|a l IH]; simpl; [reflexivity|].
  intro H. apply andb_true_iff in H. destruct H as [Ha Hl].
  apply negb_true_iff in Ha. rewrite Ha. now apply IH.
Qed.




(** ** The rollup of the available side *)

Lemma allSelected_spec_true (sel : list SelectedItem) (g : Group) :
  allSelected_spec sel g = true <->
  items g <> [] /\ forall it, In it (items g) -> In (id it) (map sel_id sel).
Proof.
  unfold allSelected_spec. rewrite andb_true_iff, length_pos_nonempty, forallb_forall.
  split; intros [H1 H2]; (split; [assumption|]); intros it Hit;
    apply is_chosen_In; now apply H2.
Qed.

Lemma rollup_okb_ok (s : State) : rollup_okb s = true <-> rollup_ok s.
Proof.
  unfold rollup_okb, rollup_ok. rewrite forallb_forall.
  split; intros H g Hg; specialize (H g Hg).
  - apply Bool.eqb_prop in H. rewrite H. apply allSelected_spec_true.
  - destruct (allSelected_spec (selectedItems s) g) eqn:E.
    + apply allSelected_spec_true in E. apply H in E. now rewrite E.
    + destruct (isAllSelected g) eqn:F; [|reflexivity].
      destruct H as [H _]. specialize (H eq_refl).
      apply allSelected_spec_true in H. unfold chosen_ids in H. congruence.
Qed.

Lemma forallb_flags (sel : list SelectedItem) (its : list Item) :
  (forall it, In it its -> isSelected it = is_chosen sel (id it)) ->
  forallb isSelected its = forallb (fun it => is_chosen sel (id it)) its.
Proof.
  induction its as [|a its IH]; simpl; intro H; [reflexivity|].
  rewrite (H a (or_introl eq_refl)), IH; [reflexivity|].
  intros it Hit. apply H. now right.
Qed.

Lemma group_sync_rollup (sel : list SelectedItem) (g : Group) :
  group_sync sel g -> isAllSelected g = allSelected_spec sel g.
Proof.
  intros [Hn Ha Hf]. unfold allSelected_spec.
  rewrite Ha, (forallb_flags sel _ Hf).
  apply length_pos_nonempty in Hn. now rewrite Hn.
Qed.

(** In a synchronized state the rollup is the one the specification asks for. *)
Lemma in_sync_rollup (s : State) : in_sync s -> rollup_ok s.
Proof.
  intros [Hg _]. apply rollup_okb_ok. unfold rollup_okb. apply forallb_forall.
  intros g Hin. rewrite (group_sync_rollup _ _ (Hg g Hin)). apply Bool.eqb_reflx.
Qed.

Lemma recompute_sync (sel' : list SelectedItem) (h : Item -> Item) (g : Group) :
  items g <> [] ->
  (forall it, In it (items g) -> isSelected (h it) = is_chosen sel' (id (h it))) ->
  group_sync sel' (recompute_all h g).
Proof.
  intros Hn Hf. constructor; simpl.
  - destruct (items g); [congruence | discriminate].
  - reflexivity.
  - intros it Hit. apply in_map_iff in Hit. destruct Hit as [x [<- Hx]]. now apply Hf.
Qed.

Lemma in_all_ids (gs : list Group) (g : Group) (it : Item) :
  In g gs -> In it (items g) -> In (id it) (all_ids gs).
Proof.
  intros Hg Hit. unfold all_ids. apply in_flat_map. exists g. split; [assumption|].
  unfold group_ids. now apply in_map.
Qed.

Lemma NoDup_app_disjoint {A : Type} (l1 l2 : list A) (x : A) :
  NoDup (l1 ++ l2) -> In x l1 -> ~ In x l2.
Proof.
  induction l1 as [|a l1 IH]; simpl; intros H Hx; [contradiction|].
  inversion H as [|? ? Hn Hl]; subst. destruct Hx as [->|Hx].
  - intro Hc. apply Hn. apply in_or_app. now right.
  - now apply IH.
Qed.

Lemma ids_of_group_incl (group : jsval) (gs : list Group) :
  incl (ids_of_group group gs) (all_ids gs).
Proof.
  intros i Hi. unfold ids_of_group, all_ids in *. apply in_flat_map in Hi.
  destruct Hi as [g [Hg Hi]]. apply filter_In in Hg. apply in_flat_map.
  exists g. now split.
Qed.

Lemma in_ids_of_group (group : jsval) (gs : list Group) (g : Group) (it : Item) :
  In g gs -> in_group group g = true -> In it (items g) ->
  In (id it) (ids_of_group group gs).
Proof.
  intros Hg E Hit. apply (in_all_ids (filter (in_group group) gs) g it); [|assumption].
  apply filter_In. now split.
Qed.

(** With all loaded ids distinct, a group of another name shares no id
    with the groups called [group]. *)
Lemma other_group_disjoint (group : jsval) (gs : list Group) (g : Group) (it : Item) :
  NoDup (all_ids gs) -> In g gs -> in_group group g = false -> In it (items g) ->
  ~ In (id it) (ids_of_group group gs).
Proof.
  induction gs as [|g0 gs IH]; simpl; intros Hn Hg E Hit; [contradiction|].
  unfold all_ids in Hn. simpl in Hn.
  unfold ids_of_group. simpl. destruct Hg as [->|Hg].
  - rewrite E. intro Hc. apply ids_of_group_incl in Hc.
    apply (NoDup_app_disjoint _ _ (id it) Hn); [|assumption].
    unfold group_ids. now apply in_map.
  - pose proof (IH (NoDup_app_remove_l _ _ Hn) Hg E Hit) as Hrest.
    destruct (in_group group g0); [|assumption].
    unfold all_ids. simpl. intro Hc. apply in_app_or in Hc. destruct Hc as [Hc|Hc].
    + apply (NoDup_app_disjoint _ _ (id it) Hn Hc). now apply (in_all_ids gs g it).
    + now apply Hrest.
Qed.

Lemma is_chosen_app (a b : list SelectedItem) (i : jsval) :
  is_chosen (a ++ b) i = is_chosen a i || is_chosen b i.
Proof. unfold is_chosen. apply existsb_app. Qed.

Lemma is_chosen_filter (q : jsval -> bool) (sel : list SelectedItem) (i : jsval) :
  is_chosen (filter (fun si => q (sel_id si)) sel) i = is_chosen sel i && q i.
Proof.
  induction sel as [|a sel IH]; simpl; [reflexivity|].
  destruct (q (sel_id a)) eqn:Q; simpl; rewrite IH;
    destruct (strict_eq (sel_id a) i) eqn:E; simpl; try reflexivity.
  - apply strict_eq_true in E. rewrite <- E, Q. reflexivity.
  - apply strict_eq_true in E. rewrite <- E, Q. apply andb_false_r.
Qed.

Lemma groupSelect_is_chosen (group : jsval) (c : bool) (s : State) (i : jsval) :
  is_chosen (selectedItems (handleGroupSelect group c s)) i =
    if c then is_chosen (selectedItems s) i || includes (ids_of_group group (processedData s)) i
    else is_chosen (selectedItems s) i && negb (includes (ids_of_group group (processedData s)) i).
Proof.
  rewrite handleGroupSelect_chosen. destruct c.
  - destruct (groupSelect_fst_checked group (processedData s) (selectedItems s) [])
      as [added [E [Hnew Hall]]].
    rewrite E.
    destruct (includes (ids_of_group group (processedData s)) i) eqn:I.
    + rewrite orb_true_r. apply is_chosen_In. apply Hall. now apply includes_In.
    + rewrite orb_false_r, is_chosen_app.
      destruct (is_chosen added i) eqn:A; [|apply orb_false_r].
      apply is_chosen_In, in_map_iff in A. destruct A as [a [Ea Ha]].
      destruct (Hnew a Ha) as [_ Hi]. rewrite Ea in Hi.
      apply includes_In in Hi. congruence.
  - rewrite groupSelect_fst_unchecked.
    apply (is_chosen_filter
             (fun v => negb (includes (ids_of_group group (processedData s)) v))).
Qed.

Lemma forallb_flagged (c : bool) (its : list Item) :
  its <> [] -> forallb isSelected (map (with_isSelected c) its) = c.
Proof.
  destruct its as [|a its]; [congruence|]. intros _. simpl.
  destruct c; simpl; [|reflexivity].
  induction its as [|b its IH]; simpl; [reflexivity | exact IH].
Qed.

Lemma handleGroupSelect_in_sync (group : jsval) (c : bool) (s : State) :
  in_sync s -> in_sync (handleGroupSelect group c s).
Proof.
  intros [Hg Hn]. constructor.
  - rewrite processedData_handleGroupSelect.
    pose proof (groupSelect_is_chosen group c s) as IC.
    generalize dependent (selectedItems (handleGroupSelect group c s)).
    intros sel' IC g' Hg'.
    apply in_map_iff in Hg'. destruct Hg' as [g [<- Hin]].
    destruct (Hg g Hin) as [Hne Hall Hfl]. unfold mark_group.
    fold (in_group group g). destruct (in_group group g) eqn:E.
    + constructor; simpl.
      * destruct (items g); [congruence | discriminate].
      * symmetry. now apply forallb_flagged.
      * intros it Hit. apply in_map_iff in Hit. destruct Hit as [x [<- Hx]]. simpl.
        rewrite IC.
        assert (I : includes (ids_of_group group (processedData s)) (id x) = true)
          by (apply includes_In; now apply (in_ids_of_group group _ g)).
        rewrite I. destruct c; [now rewrite orb_true_r | now rewrite andb_false_r].
    + constructor; try assumption. intros it Hit.
      rewrite IC.
      assert (I : includes (ids_of_group group (processedData s)) (id it) = false)
        by (apply includes_false; now apply (other_group_disjoint group _ g)).
      rewrite I, (Hfl it Hit). destruct c; [now rewrite orb_false_r | now rewrite andb_true_r].
  - rewrite processedData_handleGroupSelect.
    now rewrite (all_ids_same_shape _ _ (shape_mark_group group c (processedData s))).
Qed.

Lemma restore_group_sync (pre : list jsobj) (g : Group) :
  items g <> [] ->
  group_sync (map (fun record => mkSelectedItem (get record "name") (get record "id")) pre)
    (restore_group (map (fun record => get record "id") pre) g).
Proof.
  intro Hne. constructor; simpl.
  - destruct (items g); [congruence | discriminate].
  - rewrite length_map. apply length_pos_nonempty in Hne. now rewrite Hne.
  - intros it Hit. apply in_map_iff in Hit. destruct Hit as [x [<- Hx]]. simpl.
    now rewrite is_chosen_includes, map_map.
Qed.

(** [restoreSelection] past its guard brings every flag in line with the
    restored selection. *)
Lemma restoreSelection_in_sync (s : State) :
  (forall g, In g (processedData s) -> items g <> []) ->
  NoDup (all_ids (processedData s)) ->
  _preSelectedRecords s <> [] ->
  in_sync (restoreSelection s).
Proof.
  intros Hne Hn Hp. unfold restoreSelection.
  destruct (_preSelectedRecords s) as [|r pre]; [congruence|].
  constructor; simpl.
  - intros g' Hg'. apply in_map_iff in Hg'. destruct Hg' as [g [<- Hin]].
    apply (restore_group_sync (r :: pre)). now apply Hne.
  - now rewrite (all_ids_same_shape _ _ (shape_restore _ (processedData s))).
Qed.

Lemma set_then_restore_in_sync (l : list jsobj) (guard : bool) (s : State) :
  in_sync s ->
  in_sync (if guard then restoreSelection (set_preSelectedRecords l s)
           else set_preSelectedRecords l s).
Proof.
  intros [Hg Hn].
  assert (D : in_sync (set_preSelectedRecords l s)) by now constructor.
  destruct guard; [|assumption].
  destruct l as [|r l]; [now rewrite restoreSelection_nothing|].
  apply restoreSelection_in_sync; simpl; try assumption; [|discriminate].
  intros g Hin. apply (gs_nonempty _ _ (Hg g Hin)).
Qed.

Lemma in_sync_same (s s' : State) :
  processedData s' = processedData s -> selectedItems s' = selectedItems s ->
  in_sync s -> in_sync s'.
Proof. intros Ep Es [Hg Hn]. constructor; rewrite Ep; [rewrite Es|]; assumption. Qed.

(** *** A delivery builds fresh groups *)

Lemma push_fresh (m : jsmap (list Item)) (k : jsval) (it : Item) :
  isSelected it = false -> Forall fresh_entry m -> Forall fresh_entry (groupMap_push m k it).
Proof.
  intros Hit. induction m as [|[k' its] m IH]; simpl; intro H.
  - constructor; [|constructor]. split; [discriminate|].
    intros x [<-|[]]. assumption.
  - inversion H as [|? ? [Hne Hfl] Hm]; subst. destruct (strict_eq k' k).
    + constructor; [|assumption]. split; simpl.
      * destruct its; discriminate.
      * intros x Hx. apply in_app_or in Hx. destruct Hx as [Hx|[<-|[]]]; auto.
    + constructor; [now split | now apply IH].
Qed.

Lemma grouping_fresh (gb pv : option string) (data : list jsobj) (m0 : jsmap (list Item)) :
  Forall fresh_entry m0 -> Forall fresh_entry (fold_left (group_record gb pv) data m0).
Proof.
  revert m0. induction data as [|r data IH]; intros m0 H; simpl; [assumption|].
  apply IH. rewrite group_record_push. destruct (has_id r); [|assumption].
  now apply push_fresh.
Qed.

Lemma processQueryResults_fresh (data : list jsobj) (s : State) (g : Group) :
  In g (processedData (processQueryResults (Some data) s)) ->
  items g <> [] /\ isAllSelected g = false
  /\ forall it, In it (items g) -> isSelected it = false.
Proof.
  unfold processQueryResults. simpl. intro H. apply in_map_iff in H.
  destruct H as [e [<- He]].
  pose proof (grouping_fresh (groupBy s) (pickValues s) data [] (Forall_nil _)) as F.
  rewrite Forall_forall in F. destruct (F e He) as [Hne Hfl].
  split; [assumption|]. split; [reflexivity | assumption].
Qed.

Lemma forallb_unflagged (its : list Item) :
  its <> [] -> (forall it, In it its -> isSelected it = false) ->
  forallb isSelected its = false.
Proof.
  destruct its as [|a its]; [congruence|]. intros _ H. simpl.
  now rewrite (H a (or_introl eq_refl)).
Qed.

Lemma wiredData_in_sync (w : WireResult) (s : State) :
  load_distinct (OpWired w) = true -> stale_load s (OpWired w) = false ->
  in_sync s -> in_sync (wiredData w s).
Proof.
  intros Hd St Hs. unfold wiredData. simpl in Hd, St.
  destruct (w_data w) as [data|].
  - apply distinct_NoDup in Hd.
    set (s0 := set_error None (set_isLoading false s)) in *.
    assert (Hn : NoDup (all_ids (processedData (processQueryResults (Some data) s0))))
      by (eapply Permutation_NoDup; [apply Permutation_sym, load_all_ids | assumption]).
    change (_preSelectedRecords (processQueryResults (Some data) s0))
      with (_preSelectedRecords s).
    destruct (0 <? List.length (_preSelectedRecords s))%nat eqn:P.
    + apply restoreSelection_in_sync; [|assumption|].
      * intros g Hg. now apply (processQueryResults_fresh data s0).
      * simpl. now apply length_pos_nonempty.
    + simpl in St. apply length_zero_empty in St.
      constructor; [|assumption]. intros g Hg.
      destruct (processQueryResults_fresh data s0 g Hg) as [Hne [Hall Hfl]].
      change (selectedItems (processQueryResults (Some data) s0)) with (selectedItems s).
      rewrite St. constructor.
      * assumption.
      * rewrite Hall. symmetry. now apply forallb_unflagged.
      * intros it Hit. now rewrite (Hfl it Hit).
  - destruct (w_error w).
    + constructor; simpl; [intros g [] | constructor].
    + now apply (in_sync_same s).
Qed.

(** *** The moves *)

Lemma includes_filter (p : jsval -> bool) (l : list jsval) (i : jsval) :
  includes (filter p l) i = includes l i && p i.
Proof.
  induction l as [|a l IH]; simpl; [reflexivity|].
  unfold includes in *. destruct (p a) eqn:P; simpl; rewrite IH;
    destruct (strict_eq i a) eqn:E; simpl; try reflexivity.
  - apply strict_eq_true in E. now rewrite E, P.
  - apply strict_eq_true in E. rewrite E, P. apply andb_false_r.
Qed.

Lemma known_item (gs : list Group) (g : Group) (it : Item) :
  In g gs -> In it (items g) -> known gs (id it) = true.
Proof.
  intros Hg Hit. unfold known. apply includes_In.
  rewrite <- all_ids_items. now apply (in_all_ids gs g).
Qed.

Lemma moveSelectedToChosen_is_chosen (s : State) (g : Group) (it : Item) :
  In g (processedData s) -> In it (items g) ->
  is_chosen (selectedItems (moveSelectedToChosen s)) (id it)
  = is_chosen (selectedItems s) (id it) || includes (tempSelectedItems s) (id it).
Proof.
  intros Hg Hit. rewrite !is_chosen_includes.
  destruct (commit_ids_and_register s) as [E _].
  unfold chosen_ids in E. rewrite E, includes_app, includes_filter.
  rewrite (known_item _ g it Hg Hit). simpl.
  destruct (includes (map sel_id (selectedItems s)) (id it)); simpl; [reflexivity|].
  apply andb_true_r.
Qed.

Lemma moveSelectedToChosen_in_sync (s : State) : in_sync s -> in_sync (moveSelectedToChosen s).
Proof.
  intros [Hg Hn]. constructor.
  - pose proof (moveSelectedToChosen_is_chosen s) as IC.
    generalize dependent (selectedItems (moveSelectedToChosen s)). intros sel' IC.
    unfold moveSelectedToChosen. destruct (tempSelectedItems s) as [|t temp] eqn:E.
    + intros g Hin. destruct (Hg g Hin) as [Hne Hall Hfl].
      constructor; try assumption. intros it Hit.
      rewrite (IC g it Hin Hit). simpl. rewrite orb_false_r. now apply Hfl.
    + try rewrite E in IC. remember (t :: temp) as T eqn:ET in *.
      simpl. intros g' Hg'. apply in_map_iff in Hg'. destruct Hg' as [g [<- Hin]].
      destruct (Hg g Hin) as [Hne Hall Hfl].
      apply recompute_sync; [assumption|]. intros it Hit.
      replace (id (if includes T (id it) then with_isSelected true it else it))
        with (id it) by now destruct (includes T (id it)).
      rewrite (IC g it Hin Hit).
      destruct (includes T (id it)); simpl.
      * now rewrite orb_true_r.
      * rewrite orb_false_r. now apply Hfl.
  - now rewrite (all_ids_same_shape _ _
                   (step_shape s OpMoveToChosen
                    : shape (processedData (moveSelectedToChosen s)) = _)).
Qed.

Lemma moveChosenToAvailable_in_sync (s : State) : in_sync s -> in_sync (moveChosenToAvailable s).
Proof.
  intros [Hg Hn]. constructor.
  - unfold moveChosenToAvailable. destruct (tempChosenItems s) as [|t temp] eqn:E;
      [assumption|].
    remember (t :: temp) as T eqn:ET in *.
    simpl. intros g' Hg'. apply in_map_iff in Hg'. destruct Hg' as [g [<- Hin]].
    destruct (Hg g Hin) as [Hne Hall Hfl].
    apply recompute_sync; [assumption|]. intros it Hit.
    replace (id (if includes T (id it) then with_isSelected false it else it))
      with (id it) by now destruct (includes T (id it)).
    rewrite (is_chosen_filter (fun v => negb (includes T v))).
    destruct (includes T (id it)); simpl.
    * now rewrite andb_false_r.
    * rewrite andb_true_r. now apply Hfl.
  - now rewrite (all_ids_same_shape _ _
                   (step_shape s OpMoveToAvailable
                    : shape (processedData (moveChosenToAvailable s)) = _)).
Qed.

Lemma removeItem_in_sync (i : jsval) (s : State) : in_sync s -> in_sync (removeItem i s).
Proof.
  intros [Hg Hn]. constructor.
  - unfold removeItem. simpl. intros g' Hg'.
    apply in_map_iff in Hg'. destruct Hg' as [g [<- Hin]].
    destruct (Hg g Hin) as [Hne Hall Hfl].
    apply recompute_sync; [assumption|]. intros it Hit.
    replace (id (if strict_eq (id it) i then with_isSelected false it else it))
      with (id it) by now destruct (strict_eq (id it) i).
    rewrite (is_chosen_filter (fun v => negb (strict_eq v i))).
    destruct (strict_eq (id it) i); simpl.
    * now rewrite andb_false_r.
    * rewrite andb_true_r. now apply Hfl.
  - now rewrite (all_ids_same_shape _ _
                   (step_shape s (OpRemoveItem i)
                    : shape (processedData (removeItem i s)) = _)).
Qed.

Lemma resetSelections_in_sync (s : State) : in_sync s -> in_sync (resetSelections s).
Proof.
  intros [Hg Hn]. constructor.
  - unfold resetSelections. simpl. intros g' Hg'.
    apply in_map_iff in Hg'. destruct Hg' as [g [<- Hin]].
    destruct (Hg g Hin) as [Hne Hall Hfl]. constructor; simpl.
    + destruct (items g); [congruence | discriminate].
    + symmetry. now apply forallb_flagged.
    + intros it Hit. apply in_map_iff in Hit. now destruct Hit as [x [<- _]].
  - now rewrite (all_ids_same_shape _ _
                   (step_shape s OpReset
                    : shape (processedData (resetSelections s)) = _)).
Qed.

Lemma toggleGroup_in_sync (group : jsval) (s : State) : in_sync s -> in_sync (toggleGroup group s).
Proof.
  intros [Hg Hn]. constructor.
  - unfold toggleGroup. simpl. intros g' Hg'.
    apply in_map_iff in Hg'. destruct Hg' as [g [<- Hin]].
    destruct (Hg g Hin) as [Hne Hall Hfl].
    destruct (strict_eq (groupName g) group); now constructor.
  - now rewrite (all_ids_same_shape _ _
                   (step_shape s (OpToggleGroup group)
                    : shape (processedData (toggleGroup group s)) = _)).
Qed.

(** Every operation keeps the flags of the available side in line with the
    selection, except a delivery of data that finds a selection and nothing
    pending to restore. *)
Lemma step_in_sync (s : State) (o : Op) :
  load_distinct o = true -> stale_load s o = false ->
  in_sync s -> in_sync (step s o).
Proof.
  intros Hd St Hs.
  destruct o as [w | v | r | g | g | g c | i c | | | i | i | g | ]; unfold step.
  - now apply wiredData_in_sync.
  - unfold set_selectedRecords. now apply set_then_restore_in_sync.
  - unfold setSelectedRecords. now apply set_then_restore_in_sync.
  - now apply toggleGroup_in_sync.
  - now apply (in_sync_same s).
  - now apply handleGroupSelect_in_sync.
  - apply (in_sync_same s); try assumption;
      unfold handleItemSelect; destruct c; [destruct (negb _)| |destruct (negb _)|]; reflexivity.
  - now apply moveSelectedToChosen_in_sync.
  - now apply moveChosenToAvailable_in_sync.
  - apply (in_sync_same s); try assumption;
      unfold selectChosenItem; destruct (includes _ _); reflexivity.
  - now apply removeItem_in_sync.
  - rewrite removeGroup_handleGroupSelect. now apply handleGroupSelect_in_sync.
  - now apply resetSelections_in_sync.
Qed.

Lemma initial_in_sync (gb pv : option string) : in_sync (initial gb pv).
Proof. constructor; simpl; [intros g [] | constructor]. Qed.

Lemma run_in_sync (ops : list Op) (s : State) :
  no_stale_load s ops = true -> in_sync s -> in_sync (run s ops).
Proof.
  revert s. induction ops as [|o ops IH]; intros s H Hs; simpl; [assumption|].
  simpl in H. apply andb_true_iff in H. destruct H as [H Hr].
  apply andb_true_iff in H. destruct H as [Hd Hst]. apply negb_true_iff in Hst.
  apply IH; [assumption|]. now apply step_in_sync.
Qed.

(** The rollup invariant of the specification holds along every run in
    which data is never delivered over an existing selection without
    something to restore. *)
Lemma rollup_ok_without_stale_load (gb pv : option string) (ops : list Op) :
  no_stale_load (initial gb pv) ops = true -> rollup_ok (run (initial gb pv) ops).
Proof.
  intro H. apply in_sync_rollup. apply run_in_sync; [assumption|].
  apply initial_in_sync.
Qed.

(** C2 at its failing input.  After group Y is chosen the rollup is right;
    the same data is delivered again; [selectedItems] still holds id 3, the
    only member of Y, but the rebuilt group Y has [isAllSelected] false (and
    its item is flagged unselected): the invariant is broken. *)
Theorem reload_leaves_isAllSelected_stale :
  rollup_okb state_Y = true
  /\ stale_load state_Y (load data_A) = true
  /\ chosen_ids (step state_Y (load data_A)) = [JStr "3"]
  /\ map (fun g => (groupName g, group_ids g, isAllSelected g))
       (processedData (step state_Y (load data_A)))
     = [(JStr "X", [JStr "1"; JStr "2"], false); (JStr "Y", [JStr "3"], false)]
  /\ rollup_okb (step state_Y (load data_A)) = false
  /\ ~ rollup_ok (step state_Y (load data_A)).
Proof.
  repeat split; try reflexivity.
  intro H. apply rollup_okb_ok in H. vm_compute in H. discriminate.
Qed.

(** ** The chosen side *)

Lemma jsmap_set_new {V : Type} (m : jsmap V) (k : jsval) (v : V) :
  ~ In k (map fst m) -> jsmap_set m k v = m ++ [(k, v)].
Proof.
  induction m as [|[k' v'] m IH]; simpl; intro H; [reflexivity|].
  destruct (strict_eq k' k) eqn:E.
  - apply strict_eq_true in E. exfalso. apply H. now left.
  - rewrite IH; [reflexivity|]. intro Hc. apply H. now right.
Qed.

(** With group names all different, the chosen groups are the groups that
    have a chosen member, in the order of the available side. *)
Lemma groupsMap_fold (sel : list SelectedItem) (gs : list Group)
    (m0 : jsmap SelectedGroup) :
  NoDup (map fst m0 ++ map groupName gs) ->
  fold_left (groupsMap_step sel) gs m0
  = m0 ++ map (fun g => (groupName g, chosen_entry sel g)) (filter (has_chosen sel) gs).
Proof.
  revert m0. induction gs as [|g gs IH]; intros m0 H; simpl.
  - now rewrite app_nil_r.
  - unfold groupsMap_step at 2. fold (has_chosen sel g).
    pose proof (NoDup_remove_1 _ _ _ H) as Hrest.
    pose proof (NoDup_remove_2 _ _ _ H) as Hnew.
    destruct (has_chosen sel g).
    + rewrite jsmap_set_new by (intro Hc; apply Hnew; apply in_or_app; now left).
      rewrite IH.
      * simpl. now rewrite <- app_assoc.
      * rewrite map_app. simpl. rewrite <- app_assoc. exact H.
    + now apply IH.
Qed.

Lemma updateSelectedGroupsData_view_eq (s : State) :
  names_ok s ->
  selectedGroupsData (updateSelectedGroupsData s)
  = map (chosen_entry (selectedItems s)) (filter (has_chosen (selectedItems s)) (processedData s)).
Proof.
  intro H. unfold updateSelectedGroupsData. simpl.
  rewrite groupsMap_fold by exact H. simpl. now rewrite map_map.
Qed.

Lemma chosen_entry_ids (sel : list SelectedItem) (g : Group) (i : jsval) :
  In i (map sel_id (sg_items (chosen_entry sel g)))
  <-> In i (map sel_id sel) /\ In i (group_ids g).
Proof.
  unfold chosen_entry, selectedInGroup, group_ids. simpl. rewrite map_map. split.
  - intro H. apply in_map_iff in H. destruct H as [it [E Hit]].
    apply filter_In in Hit. destruct Hit as [Hit Hc]. simpl in E. subst i.
    split; [now apply is_chosen_In | now apply in_map].
  - intros [Hs Hg]. apply in_map_iff in Hg. destruct Hg as [it [E Hit]].
    apply in_map_iff. exists it. split; [assumption|].
    apply filter_In. split; [assumption|]. apply is_chosen_In. now rewrite E.
Qed.

Lemma has_chosen_true (sel : list SelectedItem) (g : Group) :
  has_chosen sel g = true <-> sg_items (chosen_entry sel g) <> [].
Proof.
  unfold has_chosen, chosen_entry. simpl. rewrite length_pos_nonempty.
  destruct (selectedInGroup sel g); simpl; split; congruence.
Qed.

(** [updateSelectedGroupsData] makes the chosen side the partition of the
    selection. *)
Lemma updateSelectedGroupsData_view (s : State) :
  names_ok s -> view_ok (updateSelectedGroupsData s).
Proof.
  intro Hn. constructor; rewrite updateSelectedGroupsData_view_eq by assumption.
  - intros sg H. apply in_map_iff in H. destruct H as [g [<- Hg]].
    apply filter_In in Hg. now apply has_chosen_true.
  - rewrite map_map. simpl. now apply kept_keys_NoDup.
  - intros k i. unfold chosen_ids. simpl. split.
    + intros [sg [H [Hk Hi]]]. apply in_map_iff in H. destruct H as [g [<- Hg]].
      apply filter_In in Hg. destruct Hg as [Hg _].
      apply chosen_entry_ids in Hi. destruct Hi as [Hs Hi].
      split; [assumption|]. exists g. now repeat split.
    + intros [Hs [g [Hg [Hk Hi]]]]. exists (chosen_entry (selectedItems s) g).
      assert (Hin : In i (map sel_id (sg_items (chosen_entry (selectedItems s) g))))
        by (apply chosen_entry_ids; now split).
      split; [|now split].
      apply in_map. apply filter_In. split; [assumption|].
      apply has_chosen_true. intro E. rewrite E in Hin. contradiction.
Qed.

Lemma push_keys (m : jsmap (list Item)) (k : jsval) (it : Item) (x : jsval) :
  In x (map fst (groupMap_push m k it)) -> x = k \/ In x (map fst m).
Proof.
  induction m as [|[k' its] m IH]; simpl.
  - intros [<-|[]]. now left.
  - destruct (strict_eq k' k); simpl; intros [<-|H]; auto.
    destruct (IH H); auto.
Qed.

Lemma push_keys_NoDup (m : jsmap (list Item)) (k : jsval) (it : Item) :
  NoDup (map fst m) -> NoDup (map fst (groupMap_push m k it)).
Proof.
  induction m as [|[k' its] m IH]; simpl; intro H.
  - repeat constructor. intros [].
  - inversion H as [|? ? Hn Hm]; subst. destruct (strict_eq k' k) eqn:E; simpl.
    + now constructor.
    + constructor; [|now apply IH]. intro Hc. apply push_keys in Hc.
      destruct Hc as [->|Hc]; [|contradiction].
      rewrite strict_eq_refl in E. discriminate.
Qed.

Lemma grouping_names (gb pv : option string) (data : list jsobj) (m0 : jsmap (list Item)) :
  NoDup (map fst m0) -> NoDup (map fst (fold_left (group_record gb pv) data m0)).
Proof.
  revert m0. induction data as [|r data IH]; intros m0 H; simpl; [assumption|].
  apply IH. rewrite group_record_push. destruct (has_id r); [|assumption].
  now apply push_keys_NoDup.
Qed.

(** A delivery never builds two groups of one name. *)
Lemma processQueryResults_names (data : list jsobj) (s : State) :
  names_ok (processQueryResults (Some data) s).
Proof.
  unfold names_ok, processQueryResults. simpl. rewrite map_map. simpl.
  apply grouping_names. constructor.
Qed.

Lemma names_ok_same_shape (s s' : State) :
  shape (processedData s') = shape (processedData s) -> names_ok s -> names_ok s'.
Proof. unfold names_ok. intros E H. now rewrite names_shape, E, <- names_shape. Qed.

Lemma step_names (s : State) (o : Op) :
  names_ok s -> names_ok (step s o).
Proof.
  intro H. pose proof (step_shape s o) as Hs.
  destruct o as [w| | | | | | | | | | | | ];
    try (now apply (names_ok_same_shape s)).
  unfold step, wiredData. destruct (w_data w) as [data|].
  - set (s1 := processQueryResults (Some data) _).
    assert (N : names_ok s1) by apply processQueryResults_names.
    destruct (0 <? _)%nat; [|assumption].
    destruct (restoreSelection_rest s1) as [_ [_ [_ [Es _]]]].
    now apply (names_ok_same_shape s1).
  - destruct (w_error w); [constructor | assumption].
Qed.

Lemma view_ok_emit (s : State) : view_ok s -> view_ok (emitSelectionEvent s).
Proof. intros [H1 H2 H3]. now constructor. Qed.

Lemma view_after_update (s : State) :
  names_ok s -> view_ok (emitSelectionEvent (updateSelectedGroupsData s)).
Proof. intro H. apply view_ok_emit. now apply updateSelectedGroupsData_view. Qed.

(** The chosen side only depends on the names and ids of the groups, on the
    names and items of the chosen groups and on the selection. *)
Lemma view_ok_ext (s s' : State) (f : Group -> Group) (f' : SelectedGroup -> SelectedGroup) :
  (forall g, groupName (f g) = groupName g /\ group_ids (f g) = group_ids g) ->
  (forall sg, sg_groupName (f' sg) = sg_groupName sg /\ sg_items (f' sg) = sg_items sg) ->
  processedData s' = map f (processedData s) ->
  selectedGroupsData s' = map f' (selectedGroupsData s) ->
  selectedItems s' = selectedItems s ->
  view_ok s -> view_ok s'.
Proof.
  intros Hf Hf' Ep Eg Es [H1 H2 H3]. constructor.
  - rewrite Eg. intros sg H. apply in_map_iff in H. destruct H as [x [<- Hx]].
    destruct (Hf' x) as [_ ->]. now apply H1.
  - rewrite Eg, map_map.
    erewrite map_ext; [exact H2|]. intro sg. apply Hf'.
  - intros k i. unfold chosen_ids. rewrite Es, Eg, Ep. fold (chosen_ids s). split.
    + intros [sg [H [Hk Hi]]]. apply in_map_iff in H. destruct H as [x [<- Hx]].
      destruct (Hf' x) as [En Ei]. rewrite En in Hk. rewrite Ei in Hi.
      destruct (proj1 (H3 k i)) as [Hc [g [Hg [Hk' Hi']]]]; [now exists x|].
      split; [assumption|]. exists (f g). destruct (Hf g) as [-> ->].
      split; [now apply in_map | now split].
    + intros [Hc [g' [H [Hk Hi]]]]. apply in_map_iff in H. destruct H as [g [<- Hg]].
      destruct (Hf g) as [En Ei]. rewrite En in Hk. rewrite Ei in Hi.
      destruct (proj2 (H3 k i)) as [sg [Hsg [Hk' Hi']]];
        [split; [assumption | now exists g]|].
      exists (f' sg). destruct (Hf' sg) as [-> ->].
      split; [now apply in_map | now split].
Qed.

Lemma view_ok_same (s s' : State) :
  processedData s' = processedData s ->
  selectedGroupsData s' = selectedGroupsData s ->
  selectedItems s' = selectedItems s ->
  view_ok s -> view_ok s'.
Proof.
  intros Ep Eg Es. apply (view_ok_ext s s' (fun g => g) (fun sg => sg));
    try assumption; try (now split); now rewrite map_id.
Qed.

Lemma view_empty (s : State) :
  selectedGroupsData s = [] -> selectedItems s = [] \/ processedData s = [] -> view_ok s.
Proof.
  intros Eg H. constructor; rewrite Eg.
  - intros sg [].
  - constructor.
  - intros k i. split.
    + intros [sg [[] _]].
    + unfold chosen_ids. intros [Hc [g [Hg _]]].
      destruct H as [H|H]; [rewrite H in Hc | rewrite H in Hg]; contradiction.
Qed.

Lemma view_no_selection (s : State) :
  view_ok s -> selectedItems s = [] -> selectedGroupsData s = [].
Proof.
  intros [H1 _ H3] Es. destruct (selectedGroupsData s) as [|sg l] eqn:E; [reflexivity|].
  exfalso. specialize (H1 sg (or_introl eq_refl)).
  destruct (sg_items sg) as [|a its] eqn:Ei; [congruence|].
  destruct (proj1 (H3 (sg_groupName sg) (sel_id a))) as [Hc _].
  - exists sg. rewrite Ei. simpl. auto.
  - unfold chosen_ids in Hc. rewrite Es in Hc. contradiction.
Qed.

Lemma restoreSelection_view (s : State) :
  names_ok s -> view_ok s -> view_ok (restoreSelection s).
Proof.
  intros Hn Hv. unfold restoreSelection. destruct (_preSelectedRecords s); [assumption|].
  apply updateSelectedGroupsData_view. unfold names_ok. simpl.
  rewrite names_shape, shape_restore, <- names_shape. exact Hn.
Qed.

(** Every operation leaves the chosen side the partition of the selection,
    except a stale delivery and a failed fetch that finds chosen groups. *)
Lemma step_view (s : State) (o : Op) :
  stale_load s o = false -> stale_failure s o = false ->
  names_ok s -> view_ok s -> view_ok (step s o).
Proof.
  intros St Sf Hn Hv. pose proof (step_names s o Hn) as Hn'.
  destruct o as [w | v | r | g | g | g c | i c | | | i | i | g | ]; unfold step in *.
  - unfold wiredData in *. simpl in St, Sf. destruct (w_data w) as [data|].
    + set (s1 := processQueryResults (Some data) (set_error None (set_isLoading false s))) in *.
      change (_preSelectedRecords s1) with (_preSelectedRecords s) in *.
      destruct (0 <? List.length (_preSelectedRecords s))%nat eqn:P.
      * unfold restoreSelection in *. change (_preSelectedRecords s1) with (_preSelectedRecords s) in *.
        destruct (_preSelectedRecords s); [discriminate|].
        apply updateSelectedGroupsData_view. exact Hn'.
      * simpl in St. apply length_zero_empty in St.
        apply view_empty; [|now left].
        now apply (view_no_selection s).
    + destruct (w_error w).
      * apply length_zero_empty in Sf. apply view_empty; [assumption | now right].
      * now apply (view_ok_same s).
  - unfold set_selectedRecords. destruct (_ && _); [|now apply (view_ok_same s)].
    apply restoreSelection_view; [assumption | now apply (view_ok_same s)].
  - unfold setSelectedRecords. destruct (0 <? _)%nat; [|now apply (view_ok_same s)].
    apply restoreSelection_view; [assumption | now apply (view_ok_same s)].
  - apply (view_ok_ext s _ (fun x => if strict_eq (groupName x) g then flip_expanded x else x)
             (fun sg => sg)); try reflexivity; try assumption.
    + intro x. now destruct (strict_eq (groupName x) g).
    + now split.
    + simpl. now rewrite map_id.
  - apply (view_ok_ext s _ (fun x => x)
             (fun sg => if strict_eq (sg_groupName sg) g then flip_sg_expanded sg else sg));
      try reflexivity; try assumption.
    + now split.
    + intro x. now destruct (strict_eq (sg_groupName x) g).
    + simpl. now rewrite map_id.
  - apply view_after_update. exact Hn'.
  - apply (view_ok_same s); try assumption;
      unfold handleItemSelect; destruct c; try destruct (negb _); reflexivity.
  - unfold moveSelectedToChosen in *. destruct (tempSelectedItems s); [assumption|].
    apply view_after_update. exact Hn'.
  - unfold moveChosenToAvailable in *. destruct (tempChosenItems s); [assumption|].
    apply view_after_update. exact Hn'.
  - apply (view_ok_same s); try assumption;
      unfold selectChosenItem; destruct (includes _ _); reflexivity.
  - apply view_after_update. exact Hn'.
  - apply view_after_update. exact Hn'.
  - apply view_empty; [reflexivity | now left].
Qed.

Lemma run_view (ops : list Op) (s : State) :
  no_stale_delivery s ops = true -> names_ok s -> view_ok s -> view_ok (run s ops).
Proof.
  revert s. induction ops as [|o ops IH]; intros s H Hn Hv; simpl; [assumption|].
  simpl in H. apply andb_true_iff in H. destruct H as [H Hr].
  apply andb_true_iff in H. destruct H as [H1 H2].
  apply negb_true_iff in H1. apply negb_true_iff in H2.
  apply IH; [assumption | now apply step_names | now apply step_view].
Qed.

(** The chosen side is the partition of the selection along every run
    without a stale delivery. *)
Lemma view_ok_without_stale_delivery (gb pv : option string) (ops : list Op) :
  no_stale_delivery (initial gb pv) ops = true -> view_ok (run (initial gb pv) ops).
Proof.
  intro H. apply run_view; [assumption | constructor |].
  apply view_empty; [reflexivity | now left].
Qed.

(** C3 at its failing inputs.  With ids 1 and 2 of group X chosen, the
    fetch fails: [processedData] is emptied, so no id has a known group any
    more, but [selectedGroupsData] still shows group X with 1 and 2.  The
    same happens when records of another group are delivered: the chosen
    side still shows X, which is no loaded group. *)
Theorem wiredData_leaves_chosen_groups_stale :
  view_ok state_B
  /\ processedData (step state_B fetch_failed) = []
  /\ chosen_view (step state_B fetch_failed) = [(JStr "X", [JStr "1"; JStr "2"])]
  /\ ~ view_ok (step state_B fetch_failed)
  /\ map groupName (processedData (step state_B (load [rec3 "3" "C" "Y"]))) = [JStr "Y"]
  /\ chosen_view (step state_B (load [rec3 "3" "C" "Y"])) = [(JStr "X", [JStr "1"; JStr "2"])]
  /\ ~ view_ok (step state_B (load [rec3 "3" "C" "Y"])).
Proof.
  assert (G : forall s : State,
             chosen_view s = [(JStr "X", [JStr "1"; JStr "2"])] ->
             ~ In (JStr "X") (map groupName (processedData s)) -> ~ view_ok s).
  { intros s Hc Hx [_ _ H3]. apply Hx.
    destruct (proj1 (H3 (JStr "X") (JStr "1"))) as [_ [g [Hg [Hk _]]]].
    - unfold chosen_view in Hc. destruct (selectedGroupsData s) as [|sg l]; [discriminate|].
      exists sg. simpl in Hc. inversion Hc as [[Hn Hi Hl]].
      split; [now left|]. split; [reflexivity|]. rewrite Hi. now left.
    - rewrite <- Hk. now apply in_map. }
  split; [apply (view_ok_without_stale_delivery (Some "Cat") None
                   [load data_A; OpItemSelect (JStr "1") true;
                    OpItemSelect (JStr "2") true; OpMoveToChosen]); reflexivity|].
  split; [reflexivity|]. split; [reflexivity|].
  split; [apply G; [reflexivity | intros []]|].
  split; [reflexivity|]. split; [reflexivity|].
  apply G; [reflexivity|]. vm_compute. intros [H|[]]. discriminate.
Qed.

Lemma processQueryResults_groups_records_witness :
  configured (pickValues (initial (Some "Cat") None)) = None
  /\ truthy (get (rec3 "3" "C" "Y") "Id") = true
  /\ truthy (displayValueOf (pickValues (initial (Some "Cat") None)) (rec3 "3" "C" "Y")) = true.
Proof.
  split; [reflexivity|]. split; [reflexivity|].
  exact (proj2 (proj2 (proj2
           (processQueryResults_groups_records_with_id (initial (Some "Cat") None) data_A)))
           (rec3 "3" "C" "Y") eq_refl eq_refl).
Defined.


(** ** The scenarios of the specification, run on the model *)

(** Scenario A: the grouping, all unselected. *)
Example scenario_A :
  available_view state_A
  = [(JStr "X", [JStr "1"; JStr "2"], false); (JStr "Y", [JStr "3"], false)]
  /\ chosen_ids state_A = [].
Proof. split; reflexivity. Qed.

(** Scenario B: stage 1 and 2, commit. *)
Example scenario_B :
  chosen_ids state_B = [JStr "1"; JStr "2"]
  /\ available_view state_B
     = [(JStr "X", [JStr "1"; JStr "2"], true); (JStr "Y", [JStr "3"], false)]
  /\ chosen_view state_B = [(JStr "X", [JStr "1"; JStr "2"])]
  /\ dispatched state_B
     = [[mkSelectedItem (JStr "A") (JStr "1"); mkSelectedItem (JStr "B") (JStr "2")]]
  /\ tempSelectedItems state_B = [].
Proof. repeat split; reflexivity. Qed.

(** Scenarios C and D: the group checkbox of Y, then the removal of X. *)
Example scenario_C_D :
  chosen_ids (run state_B [OpGroupSelect (JStr "Y") true])
  = [JStr "1"; JStr "2"; JStr "3"]
  /\ chosen_view (run state_B [OpGroupSelect (JStr "Y") true])
     = [(JStr "X", [JStr "1"; JStr "2"]); (JStr "Y", [JStr "3"])]
  /\ chosen_ids (run state_B [OpGroupSelect (JStr "Y") true; OpRemoveGroup (JStr "X")])
     = [JStr "3"]
  /\ chosen_view (run state_B [OpGroupSelect (JStr "Y") true; OpRemoveGroup (JStr "X")])
     = [(JStr "Y", [JStr "3"])]
  /\ available_view (run state_B [OpGroupSelect (JStr "Y") true; OpRemoveGroup (JStr "X")])
     = [(JStr "X", [JStr "1"; JStr "2"], false); (JStr "Y", [JStr "3"], true)].
Proof. repeat split; reflexivity. Qed.

(** Scenario F: an id that is never loaded stays chosen and belongs to no
    chosen group. *)
Example scenario_F :
  chosen_ids (run state_A [OpSetSelectedRecords (Some [[("id", JStr "9"); ("label", JStr "Ghost")]])])
  = [JStr "9"]
  /\ chosen_view (run state_A [OpSetSelectedRecords (Some [[("id", JStr "9"); ("label", JStr "Ghost")]])])
     = [].
Proof. split; reflexivity. Qed.

(** * Further properties of the handlers *)

(** ** Which operations notify *)

Lemma restoreSelection_dispatched (s : State) :
  dispatched (restoreSelection s) = dispatched s.
Proof. apply restoreSelection_rest. Qed.

(** X1. An operation dispatches at most one [selection] event, and the
    event carries what [getSelectedRecords] returns right after it.  The
    group checkbox, the removal of an item or of a group and the reset
    always dispatch, also when they change nothing; a move dispatches when
    its button is enabled; staging, toggling, the deliveries of the wire
    adapter and the restoration of a selection never dispatch. *)
Theorem step_dispatches_current_selection (s : State) (o : Op) :
  dispatched (step s o)
  = dispatched s ++ (if emits s o then [getSelectedRecords (step s o)] else []).
Proof.
  assert (E : forall x, dispatched (emitSelectionEvent x)
                        = dispatched x ++ [getSelectedRecords (emitSelectionEvent x)]).
  { intro x. unfold emitSelectionEvent, getSelectedRecords. simpl.
    now rewrite emitted_payload. }
  destruct o as [w | v | r | g | g | g c | i c | | | i | i | g | ]; unfold step, emits.
  - rewrite app_nil_r. unfold wiredData. destruct (w_data w) as [data|].
    + destruct (0 <? _)%nat; [now rewrite restoreSelection_dispatched | reflexivity].
    + now destruct (w_error w).
  - rewrite app_nil_r. unfold set_selectedRecords.
    destruct (_ && _); [now rewrite restoreSelection_dispatched | reflexivity].
  - rewrite app_nil_r. unfold setSelectedRecords.
    destruct (0 <? _)%nat; [now rewrite restoreSelection_dispatched | reflexivity].
  - now rewrite app_nil_r.
  - now rewrite app_nil_r.
  - unfold handleGroupSelect. now rewrite E.
  - rewrite app_nil_r. unfold handleItemSelect.
    destruct c; [destruct (negb _)|]; reflexivity.
  - unfold isMoveRightDisabled, moveSelectedToChosen.
    destruct (tempSelectedItems s); simpl negb; cbv iota; [now rewrite app_nil_r|].
    now rewrite E.
  - unfold isMoveLeftDisabled, moveChosenToAvailable.
    destruct (tempChosenItems s); simpl negb; cbv iota; [now rewrite app_nil_r|].
    now rewrite E.
  - rewrite app_nil_r. unfold selectChosenItem. now destruct (includes _ _).
  - unfold removeItem. now rewrite E.
  - unfold removeGroup. now rewrite E.
  - unfold resetSelections. now rewrite E.
Qed.

(** ** Staging *)

Lemma includes_without (l : list jsval) (i j : jsval) :
  includes (filter (fun x => negb (strict_eq x i)) l) j
  = includes l j && negb (strict_eq j i).
Proof. apply (includes_filter (fun x => negb (strict_eq x i))). Qed.

Lemma includes_with (l : list jsval) (i j : jsval) :
  includes (l ++ [i]) j = includes l j || strict_eq j i.
Proof. rewrite includes_app. simpl. now rewrite orb_false_r. Qed.

Lemma filter_twice {A : Type} (p : A -> bool) (l : list A) :
  filter p (filter p l) = filter p l.
Proof.
  rewrite filter_filter. apply filter_ext. intro a. now destruct (p a).
Qed.

(** X2. The checkbox of an available item only edits [tempSelectedItems]:
    selection, groups, chosen groups, the other register and the event log
    stay as they are.  Afterwards the id is staged exactly when the box is
    checked, the other ids are staged as before, a register without
    repetitions stays so, and the same click once more changes nothing. *)
Theorem handleItemSelect_stages_only (s : State) (i : jsval) (c : bool) :
  selectedItems (handleItemSelect i c s) = selectedItems s
  /\ processedData (handleItemSelect i c s) = processedData s
  /\ selectedGroupsData (handleItemSelect i c s) = selectedGroupsData s
  /\ tempChosenItems (handleItemSelect i c s) = tempChosenItems s
  /\ dispatched (handleItemSelect i c s) = dispatched s
  /\ (forall j, includes (tempSelectedItems (handleItemSelect i c s)) j
                = if strict_eq j i then c else includes (tempSelectedItems s) j)
  /\ (distinct (tempSelectedItems s) = true ->
      distinct (tempSelectedItems (handleItemSelect i c s)) = true)
  /\ handleItemSelect i c (handleItemSelect i c s) = handleItemSelect i c s.
Proof.
  unfold handleItemSelect. destruct c.
  - destruct (includes (tempSelectedItems s) i) eqn:I; simpl.
    + repeat split; try reflexivity; try (intro; assumption).
      * intro j. destruct (strict_eq j i) eqn:E; [|reflexivity].
        apply strict_eq_true in E. now subst j.
      * now rewrite I.
    + repeat split; try reflexivity.
      * intro j. rewrite includes_with. destruct (strict_eq j i) eqn:E.
        -- apply orb_true_r.
        -- apply orb_false_r.
      * intro H. apply distinct_NoDup. apply distinct_NoDup in H.
        apply NoDup_app; [assumption | repeat constructor; intros [] |].
        intros a Ha [Hb|[]]. subst a. apply includes_In in Ha. congruence.
      * rewrite includes_with, strict_eq_refl, orb_true_r. reflexivity.
  - simpl. repeat split; try reflexivity.
    + intro j. rewrite includes_without. destruct (strict_eq j i); simpl.
      * apply andb_false_r.
      * apply andb_true_r.
    + intro H. apply distinct_NoDup. apply distinct_NoDup in H. now apply NoDup_filter.
    + unfold set_tempSelectedItems. simpl. now rewrite filter_twice.
Qed.

Lemma filter_absent (l : list jsval) (i : jsval) :
  includes l i = false -> filter (fun x => negb (strict_eq x i)) l = l.
Proof.
  intro H. apply forallb_filter_id. apply forallb_forall. intros x Hx.
  apply negb_true_iff. apply strict_eq_false. intros ->.
  apply includes_In in Hx. congruence.
Qed.

(** X3. A click on a chosen item only edits [tempChosenItems] and flips
    whether the id is marked: the other ids are marked as before, and
    nothing else changes. *)
Theorem selectChosenItem_toggles_mark (s : State) (i : jsval) :
  selectedItems (selectChosenItem i s) = selectedItems s
  /\ processedData (selectChosenItem i s) = processedData s
  /\ selectedGroupsData (selectChosenItem i s) = selectedGroupsData s
  /\ tempSelectedItems (selectChosenItem i s) = tempSelectedItems s
  /\ dispatched (selectChosenItem i s) = dispatched s
  /\ (forall j, includes (tempChosenItems (selectChosenItem i s)) j
                = if strict_eq j i then negb (includes (tempChosenItems s) i)
                  else includes (tempChosenItems s) j).
Proof.
  unfold selectChosenItem. destruct (includes (tempChosenItems s) i) eqn:I; simpl;
    repeat split; try reflexivity; intro j.
  - rewrite includes_without. destruct (strict_eq j i); simpl.
    + apply andb_false_r.
    + apply andb_true_r.
  - rewrite includes_with. destruct (strict_eq j i) eqn:E; simpl.
    + apply orb_true_r.
    + rewrite orb_false_r. reflexivity.
Qed.

(** X4. Marking a chosen item that was not marked and clicking it again
    gives back the very state one started from. *)
Theorem selectChosenItem_twice (s : State) (i : jsval) :
  includes (tempChosenItems s) i = false ->
  selectChosenItem i (selectChosenItem i s) = s.
Proof.
  intro H. unfold selectChosenItem at 2. rewrite H.
  unfold selectChosenItem. simpl.
  rewrite includes_with, strict_eq_refl, orb_true_r.
  rewrite filter_app. simpl. rewrite strict_eq_refl. simpl.
  rewrite app_nil_r, (filter_absent _ _ H).
  now destruct s.
Qed.

Lemma selectChosenItem_twice_witness :
  includes (tempChosenItems state_B) (JStr "1") = false
  /\ selectChosenItem (JStr "1") (selectChosenItem (JStr "1") state_B) = state_B.
Proof.
  split; [reflexivity|].
  exact (selectChosenItem_twice state_B (JStr "1") eq_refl).
Defined.

(** ** The group checkbox and the removal of a group *)

Lemma ids_of_group_marked (group group' : jsval) (c : bool) (gs : list Group) :
  ids_of_group group (map (mark_group group' c) gs) = ids_of_group group gs.
Proof.
  unfold ids_of_group, all_ids. induction gs as [|g gs IH]; simpl; [reflexivity|].
  assert (N : in_group group (mark_group group' c g) = in_group group g)
    by (unfold in_group, mark_group; now destruct (strict_eq (groupName g) group')).
  assert (I : group_ids (mark_group group' c g) = group_ids g).
  { unfold mark_group. destruct (strict_eq (groupName g) group'); [|reflexivity].
    unfold group_ids. simpl. now apply ids_map_items. }
  rewrite N. destruct (in_group group g); simpl; now rewrite ?I, IH.
Qed.

Lemma firstn_prefix {A : Type} (l added : list A) :
  firstn (List.length l) (l ++ added) = l.
Proof.
  rewrite firstn_app, Nat.sub_diag, firstn_all. simpl. apply app_nil_r.
Qed.

(** X5. Checking a group box chooses every id of the groups of that name
    and nothing else: an id is chosen afterwards exactly when it was chosen
    or belongs to such a group.  The entries chosen before stay in front, in
    their order; in the groups of that name every item is flagged and
    [isAllSelected] is on, the other groups are not touched. *)
Theorem handleGroupSelect_checked_chooses_group (s : State) (group : jsval) :
  (forall i, is_chosen (selectedItems (handleGroupSelect group true s)) i
             = is_chosen (selectedItems s) i
               || includes (ids_of_group group (processedData s)) i)
  /\ firstn (List.length (selectedItems s)) (selectedItems (handleGroupSelect group true s))
     = selectedItems s
  /\ processedData (handleGroupSelect group true s)
     = map (fun g => if strict_eq (groupName g) group
                     then with_items (map (with_isSelected true) (items g)) true g
                     else g)
         (processedData s)
  /\ tempSelectedItems (handleGroupSelect group true s) = tempSelectedItems s
  /\ tempChosenItems (handleGroupSelect group true s) = tempChosenItems s.
Proof.
  split; [intro i; apply (groupSelect_is_chosen group true s i)|].
  split.
  - rewrite handleGroupSelect_chosen.
    destruct (groupSelect_fst_checked group (processedData s) (selectedItems s) [])
      as [added [E _]].
    rewrite E. apply firstn_prefix.
  - split; [apply processedData_handleGroupSelect | split; reflexivity].
Qed.

(** X6. Removing a group is the same operation as unchecking its box: the
    two handlers return the same state.  The selection keeps, in order,
    exactly the entries whose id is in no group of that name; in these
    groups every item is unflagged and [isAllSelected] is off. *)
Theorem removeGroup_is_uncheck (s : State) (group : jsval) :
  removeGroup group s = handleGroupSelect group false s
  /\ selectedItems (removeGroup group s)
     = filter (fun item => negb (includes (ids_of_group group (processedData s)) (sel_id item)))
         (selectedItems s)
  /\ processedData (removeGroup group s)
     = map (fun g => if strict_eq (groupName g) group
                     then with_items (map (with_isSelected false) (items g)) false g
                     else g)
         (processedData s).
Proof.
  rewrite removeGroup_handleGroupSelect. split; [reflexivity|]. split.
  - rewrite handleGroupSelect_chosen. apply groupSelect_fst_unchecked.
  - apply processedData_handleGroupSelect.
Qed.

Lemma no_such_group_ids (group : jsval) (gs : list Group) :
  existsb (in_group group) gs = false -> ids_of_group group gs = [].
Proof.
  intro H. unfold ids_of_group.
  replace (filter (in_group group) gs) with (@nil Group); [reflexivity|].
  symmetry. apply filter_nothing. apply forallb_forall. intros g Hg.
  apply negb_true_iff. destruct (in_group group g) eqn:E; [|reflexivity].
  assert (X : existsb (in_group group) gs = true)
    by (apply existsb_exists; now exists g).
  congruence.
Qed.

(** X7. When no group has the name, the group checkbox (and so the removal
    of a group) changes neither the selection nor the available side, but
    it recomputes the chosen side and dispatches an event all the same. *)
Theorem handleGroupSelect_unknown_group (s : State) (group : jsval) (c : bool) :
  existsb (in_group group) (processedData s) = false ->
  selectedItems (handleGroupSelect group c s) = selectedItems s
  /\ processedData (handleGroupSelect group c s) = processedData s
  /\ dispatched (handleGroupSelect group c s) = dispatched s ++ [selectedItems s].
Proof.
  intro H. pose proof (no_such_group_ids _ _ H) as N.
  assert (Es : selectedItems (handleGroupSelect group c s) = selectedItems s).
  { rewrite handleGroupSelect_chosen. destruct c.
    - destruct (groupSelect_fst_checked group (processedData s) (selectedItems s) [])
        as [added [E [Hnew _]]].
      rewrite E. destruct added as [|a added]; [apply app_nil_r|].
      destruct (Hnew a (or_introl eq_refl)) as [_ Hi]. rewrite N in Hi. contradiction.
    - rewrite groupSelect_fst_unchecked, N.
      etransitivity; [|apply filter_true]. apply filter_ext. reflexivity. }
  split; [assumption|]. split.
  - rewrite processedData_handleGroupSelect.
    etransitivity; [|apply map_id]. apply map_ext_in. intros g Hg.
    unfold mark_group. fold (in_group group g).
    destruct (in_group group g) eqn:E; [|reflexivity].
    assert (X : existsb (in_group group) (processedData s) = true)
      by (apply existsb_exists; now exists g).
    congruence.
  - rewrite <- Es. unfold handleGroupSelect, emitSelectionEvent. simpl.
    now rewrite emitted_payload.
Qed.

Lemma handleGroupSelect_unknown_group_witness :
  existsb (in_group (JStr "Z")) (processedData state_B) = false
  /\ selectedItems (handleGroupSelect (JStr "Z") true state_B) = selectedItems state_B.
Proof.
  split; [reflexivity|].
  exact (proj1 (handleGroupSelect_unknown_group state_B (JStr "Z") true eq_refl)).
Defined.

(** X8. Checking a group of which nothing was chosen and unchecking it
    again gives back the selection one started from. *)
Theorem handleGroupSelect_check_uncheck (s : State) (group : jsval) :
  forallb (fun i => negb (is_chosen (selectedItems s) i))
    (ids_of_group group (processedData s)) = true ->
  selectedItems (handleGroupSelect group false (handleGroupSelect group true s))
  = selectedItems s.
Proof.
  intro H. rewrite forallb_forall in H.
  rewrite (handleGroupSelect_chosen group false), groupSelect_fst_unchecked.
  rewrite processedData_handleGroupSelect, ids_of_group_marked.
  rewrite handleGroupSelect_chosen.
  destruct (groupSelect_fst_checked group (processedData s) (selectedItems s) [])
    as [added [E [Hnew _]]].
  rewrite E, filter_app.
  rewrite (forallb_filter_id _ (selectedItems s)).
  - rewrite filter_nothing; [apply app_nil_r|].
    apply forallb_forall. intros a Ha. rewrite negb_involutive.
    apply includes_In. now apply Hnew.
  - apply forallb_forall. intros a Ha.
    destruct (includes (ids_of_group group (processedData s)) (sel_id a)) eqn:I;
      [|reflexivity].
    apply includes_In in I. specialize (H _ I). apply negb_true_iff in H.
    assert (C : is_chosen (selectedItems s) (sel_id a) = true)
      by (apply is_chosen_In; now apply in_map).
    congruence.
Qed.

Lemma handleGroupSelect_check_uncheck_witness :
  forallb (fun i => negb (is_chosen (selectedItems state_B) i))
    (ids_of_group (JStr "Y") (processedData state_B)) = true
  /\ selectedItems (handleGroupSelect (JStr "Y") false (handleGroupSelect (JStr "Y") true state_B))
     = selectedItems state_B.
Proof.
  split; [reflexivity|].
  exact (handleGroupSelect_check_uncheck state_B (JStr "Y") eq_refl).
Defined.

(** ** Moving back to the available side *)

Lemma moveChosenToAvailable_selectedItems (s : State) :
  selectedItems (moveChosenToAvailable s)
  = filter (fun item => negb (includes (tempChosenItems s) (sel_id item))) (selectedItems s).
Proof.
  unfold moveChosenToAvailable. destruct (tempChosenItems s) as [|t temp]; [|reflexivity].
  symmetry. etransitivity; [|apply filter_true]. apply filter_ext. reflexivity.
Qed.

(** X9. [moveChosenToAvailable] keeps of the selection, in order, exactly
    the entries whose id is not marked, and empties [tempChosenItems], so
    its button is disabled afterwards; the staged ids of the available side
    are left alone.  With something marked it dispatches one event with the
    new list (also when no marked id was chosen); with nothing marked it
    returns the state as it is. *)
Theorem moveChosenToAvailable_removes_marked (s : State) :
  selectedItems (moveChosenToAvailable s)
  = filter (fun item => negb (includes (tempChosenItems s) (sel_id item))) (selectedItems s)
  /\ tempChosenItems (moveChosenToAvailable s) = []
  /\ isMoveLeftDisabled (moveChosenToAvailable s) = true
  /\ tempSelectedItems (moveChosenToAvailable s) = tempSelectedItems s
  /\ match tempChosenItems s with
     | [] => moveChosenToAvailable s = s
     | _ :: _ =>
         dispatched (moveChosenToAvailable s)
         = dispatched s ++ [selectedItems (moveChosenToAvailable s)]
     end.
Proof.
  unfold isMoveLeftDisabled, moveChosenToAvailable.
  destruct (tempChosenItems s) as [|t temp] eqn:E.
  - rewrite E. repeat split; try reflexivity.
    symmetry. etransitivity; [|apply filter_true]. apply filter_ext. reflexivity.
  - repeat split; try reflexivity.
    unfold emitSelectionEvent. simpl. now rewrite emitted_payload.
Qed.

Lemma mark_all_appends (T : list jsval) (s : State) :
  NoDup (tempChosenItems s ++ T) ->
  tempChosenItems (mark_all T s) = tempChosenItems s ++ T
  /\ selectedItems (mark_all T s) = selectedItems s
  /\ processedData (mark_all T s) = processedData s.
Proof.
  unfold mark_all. revert s. induction T as [|t T IH]; intros s H; simpl.
  - now rewrite app_nil_r.
  - assert (I : includes (tempChosenItems s) t = false).
    { apply includes_false. intro Hc. apply NoDup_remove_2 in H.
      apply H. apply in_or_app. now left. }
    assert (E : selectChosenItem t s = set_tempChosenItems (tempChosenItems s ++ [t]) s)
      by (unfold selectChosenItem; now rewrite I).
    rewrite E. destruct (IH (set_tempChosenItems (tempChosenItems s ++ [t]) s))
      as [Ht [Hs Hp]].
    + simpl. now rewrite <- app_assoc.
    + rewrite Ht, Hs, Hp. simpl. now rewrite <- app_assoc.
Qed.

Lemma moveSelectedToChosen_tempChosenItems (s : State) :
  tempChosenItems (moveSelectedToChosen s) = tempChosenItems s.
Proof. unfold moveSelectedToChosen. now destruct (tempSelectedItems s). Qed.

(** X10. Round trip of the two moves.  Stage ids of which none is chosen,
    commit them, mark the same ids on the chosen side (nothing being marked
    before) and move them back: the selection is the one before the
    commit. *)
Theorem commit_then_move_back (s : State) :
  tempChosenItems s = [] ->
  distinct (tempSelectedItems s) = true ->
  forallb (fun i => negb (includes (chosen_ids s) i)) (tempSelectedItems s) = true ->
  selectedItems
    (run s ([OpMoveToChosen] ++ map OpSelectChosenItem (tempSelectedItems s)
            ++ [OpMoveToAvailable]))
  = selectedItems s.
Proof.
  intros Hc Hd Hn. apply distinct_NoDup in Hd. rewrite forallb_forall in Hn.
  unfold run. rewrite fold_left_app, fold_left_app. simpl.
  set (T := tempSelectedItems s) in *.
  fold (run (moveSelectedToChosen s) (map OpSelectChosenItem T)).
  fold (mark_all T (moveSelectedToChosen s)).
  destruct (mark_all_appends T (moveSelectedToChosen s)) as [Et [Es _]].
  { rewrite moveSelectedToChosen_tempChosenItems, Hc. exact Hd. }
  rewrite moveSelectedToChosen_tempChosenItems, Hc in Et. simpl in Et.
  rewrite moveChosenToAvailable_selectedItems, Et, Es, moveSelectedToChosen_selectedItems, filter_app.
  rewrite (forallb_filter_id _ (selectedItems s)).
  - rewrite filter_nothing; [apply app_nil_r|].
    apply forallb_forall. intros a Ha. rewrite negb_involutive.
    apply includes_In. apply (in_map sel_id) in Ha. rewrite map_map in Ha.
    change (fun x : Item => sel_id (to_selected x)) with id in Ha.
    fold T in Ha. rewrite itemsToAdd_ids in Ha. now apply filter_In in Ha.
  - apply forallb_forall. intros a Ha.
    destruct (includes T (sel_id a)) eqn:I; [|reflexivity].
    apply includes_In in I. specialize (Hn _ I). apply negb_true_iff in Hn.
    apply includes_false in Hn. exfalso. apply Hn. unfold chosen_ids. now apply in_map.
Qed.

Lemma commit_then_move_back_witness :
  tempChosenItems (run state_B [OpItemSelect (JStr "3") true]) = []
  /\ distinct (tempSelectedItems (run state_B [OpItemSelect (JStr "3") true])) = true
  /\ selectedItems
       (run (run state_B [OpItemSelect (JStr "3") true])
          ([OpMoveToChosen]
           ++ map OpSelectChosenItem
                (tempSelectedItems (run state_B [OpItemSelect (JStr "3") true]))
           ++ [OpMoveToAvailable]))
     = selectedItems (run state_B [OpItemSelect (JStr "3") true]).
Proof.
  split; [reflexivity|]. split; [reflexivity|].
  exact (commit_then_move_back (run state_B [OpItemSelect (JStr "3") true])
           eq_refl eq_refl eq_refl).
Defined.

(** ** The order of the grouping *)

Lemma push_items_of (m : jsmap (list Item)) (k k' : jsval) (it : Item) :
  items_of (groupMap_push m k it) k'
  = items_of m k' ++ (if strict_eq k k' then [it] else []).
Proof.
  unfold items_of. induction m as [|[k0 its] m IH]; simpl.
  - destruct (strict_eq k k'); reflexivity.
  - destruct (strict_eq k0 k) eqn:E; simpl.
    + apply strict_eq_true in E. subst k0.
      destruct (strict_eq k k'); [reflexivity | now rewrite app_nil_r].
    + destruct (strict_eq k0 k') eqn:E'; [|exact IH].
      apply strict_eq_true in E'. subst k0.
      rewrite strict_eq_sym in E. rewrite E. now rewrite app_nil_r.
Qed.

Lemma grouping_items_of (gb pv : option string) (data : list jsobj)
    (m0 : jsmap (list Item)) (k : jsval) :
  items_of (fold_left (group_record gb pv) data m0) k
  = items_of m0 k ++ items_for gb pv data k.
Proof.
  revert m0. unfold items_for. induction data as [|r data IH]; intro m0; simpl.
  - now rewrite app_nil_r.
  - rewrite IH, group_record_push. destruct (has_id r); simpl; [|reflexivity].
    rewrite push_items_of. destruct (strict_eq (groupNameOf gb r) k); simpl.
    + now rewrite <- app_assoc.
    + now rewrite app_nil_r.
Qed.

Lemma push_keys_add (m : jsmap (list Item)) (k : jsval) (it : Item) :
  map fst (groupMap_push m k it) = add_key (map fst m) k.
Proof.
  unfold add_key, includes. induction m as [|[k0 its] m IH]; simpl; [reflexivity|].
  rewrite (strict_eq_sym k k0). destruct (strict_eq k0 k); simpl; [reflexivity|].
  rewrite IH. now destruct (existsb (strict_eq k) (map fst m)).
Qed.

Lemma add_keys_first_seen (l acc : list jsval) :
  fold_left add_key l acc
  = acc ++ filter (fun x => negb (includes acc x)) (first_seen l).
Proof.
  revert acc. induction l as [|a l IH]; intro acc; simpl.
  - now rewrite app_nil_r.
  - rewrite IH. unfold add_key. destruct (includes acc a) eqn:I; simpl.
    + f_equal. rewrite filter_filter. apply filter_ext_in. intros x _.
      destruct (strict_eq x a) eqn:E; simpl; [|reflexivity].
      apply strict_eq_true in E. subst x. now rewrite I.
    + rewrite <- app_assoc. simpl. f_equal. f_equal.
      rewrite filter_filter. apply filter_ext. intro x.
      rewrite includes_app. simpl. rewrite orb_false_r, strict_eq_sym.
      rewrite negb_orb. rewrite (strict_eq_sym a x). apply andb_comm.
Qed.

Lemma grouping_keys (gb pv : option string) (data : list jsobj) (m0 : jsmap (list Item)) :
  map fst (fold_left (group_record gb pv) data m0)
  = fold_left add_key (map (groupNameOf gb) (filter has_id data)) (map fst m0).
Proof.
  revert m0. induction data as [|r data IH]; intro m0; simpl; [reflexivity|].
  rewrite IH, group_record_push. destruct (has_id r); simpl; [|reflexivity].
  now rewrite push_keys_add.
Qed.

Lemma jsmap_by_keys (m : jsmap (list Item)) :
  NoDup (map fst m) -> m = map (fun k => (k, items_of m k)) (map fst m).
Proof.
  induction m as [|[k v] m IH]; simpl; intro H; [reflexivity|].
  inversion H as [|? ? Hn Hm]; subst. unfold items_of at 1. simpl.
  rewrite strict_eq_refl. f_equal. rewrite (IH Hm) at 1.
  apply map_ext_in. intros k' Hk'. unfold items_of. simpl.
  destruct (strict_eq k k') eqn:E; [|reflexivity].
  apply strict_eq_true in E. subst k'. contradiction.
Qed.

(** X11. The grouping, in full.  The groups come in the order in which
    their names first occur among the records that have an id; each group
    holds the items of its records in the order of the delivery; every
    group starts collapsed, with [isAllSelected] off and every item
    unselected.  What was loaded before plays no part. *)
Theorem processQueryResults_first_seen_order (s : State) (data : list jsobj) :
  processedData (processQueryResults (Some data) s)
  = map (fun k => mkGroup k (items_for (groupBy s) (pickValues s) data k)
                    false false icon_down "items-list collapsed")
      (first_seen (map (groupNameOf (groupBy s)) (filter has_id data))).
Proof.
  unfold processQueryResults. simpl.
  set (m := fold_left (group_record (groupBy s) (pickValues s)) data []).
  assert (K : map fst m = first_seen (map (groupNameOf (groupBy s)) (filter has_id data))).
  { unfold m. rewrite grouping_keys, add_keys_first_seen. simpl.
    etransitivity; [apply filter_ext|apply filter_true]. reflexivity. }
  assert (N : NoDup (map fst m)) by (apply grouping_names; constructor).
  rewrite (jsmap_by_keys m N), map_map, K. apply map_ext. intro k.
  unfold new_group. simpl. f_equal.
  unfold m. now rewrite grouping_items_of.
Qed.

(** ** The order of the chosen side *)

Lemma chosen_entry_view (sel : list SelectedItem) (g : Group) :
  map sel_id (sg_items (chosen_entry sel g)) = filter (is_chosen sel) (group_ids g).
Proof.
  unfold chosen_entry, selectedInGroup, group_ids. simpl.
  rewrite map_map, filter_map_swap. reflexivity.
Qed.

Lemma updateSelectedGroupsData_derived (s : State) :
  names_ok s ->
  chosen_view (updateSelectedGroupsData s) = derived_view (processedData s) (selectedItems s).
Proof.
  intro H. unfold chosen_view, derived_view.
  rewrite updateSelectedGroupsData_view_eq by assumption. rewrite map_map.
  apply map_ext. intro g. now rewrite chosen_entry_view.
Qed.

Lemma derived_view_nothing_chosen (pd : list Group) : derived_view pd [] = [].
Proof.
  unfold derived_view. rewrite filter_nothing; [reflexivity|].
  apply forallb_forall. intros g _. unfold has_chosen, selectedInGroup.
  rewrite filter_nothing; [reflexivity|]. apply forallb_forall. reflexivity.
Qed.

Lemma derived_view_map (f : Group -> Group) (pd : list Group) (sel : list SelectedItem) :
  (forall g, groupName (f g) = groupName g /\ items (f g) = items g) ->
  derived_view (map f pd) sel = derived_view pd sel.
Proof.
  intro H. unfold derived_view. induction pd as [|g pd IH]; simpl; [reflexivity|].
  destruct (H g) as [Hn Hi].
  replace (has_chosen sel (f g)) with (has_chosen sel g)
    by (unfold has_chosen, selectedInGroup; now rewrite Hi).
  destruct (has_chosen sel g); simpl; [|exact IH].
  unfold group_ids at 1. rewrite Hn, Hi. fold (group_ids g). now rewrite IH.
Qed.

Lemma restoreSelection_derived (s : State) :
  names_ok s -> _preSelectedRecords s <> [] ->
  chosen_view (restoreSelection s)
  = derived_view (processedData (restoreSelection s)) (selectedItems (restoreSelection s)).
Proof.
  intros Hn Hp. unfold restoreSelection. destruct (_preSelectedRecords s); [congruence|].
  rewrite updateSelectedGroupsData_derived; [reflexivity|].
  unfold names_ok. simpl.
  rewrite names_shape, shape_restore, <- names_shape. exact Hn.
Qed.

Lemma step_derived (s : State) (o : Op) :
  stale_load s o = false -> stale_failure s o = false ->
  names_ok s ->
  chosen_view s = derived_view (processedData s) (selectedItems s) ->
  chosen_view (step s o)
  = derived_view (processedData (step s o)) (selectedItems (step s o)).
Proof.
  intros St Sf Hn Hv. pose proof (step_names s o Hn) as Hn'.
  assert (U : forall x, names_ok x ->
              chosen_view (emitSelectionEvent (updateSelectedGroupsData x))
              = derived_view (processedData (emitSelectionEvent (updateSelectedGroupsData x)))
                  (selectedItems (emitSelectionEvent (updateSelectedGroupsData x))))
    by (intros x Hx; exact (updateSelectedGroupsData_derived x Hx)).
  assert (R : forall x, names_ok x ->
              chosen_view x = derived_view (processedData x) (selectedItems x) ->
              chosen_view (restoreSelection x)
              = derived_view (processedData (restoreSelection x))
                  (selectedItems (restoreSelection x))).
  { intros x Hx Hxv. destruct (_preSelectedRecords x) eqn:E.
    - now rewrite restoreSelection_nothing.
    - apply restoreSelection_derived; [assumption | congruence]. }
  destruct o as [w | v | r | g | g | g c | i c | | | i | i | g | ]; unfold step in *.
  - unfold wiredData in *. simpl in St, Sf. destruct (w_data w) as [data|].
    + set (s1 := processQueryResults (Some data) (set_error None (set_isLoading false s))) in *.
      change (_preSelectedRecords s1) with (_preSelectedRecords s) in *.
      destruct (0 <? List.length (_preSelectedRecords s))%nat eqn:P.
      * apply restoreSelection_derived; [apply processQueryResults_names|].
        simpl. now apply length_pos_nonempty.
      * simpl in St. apply length_zero_empty in St.
        change (chosen_view s1) with (chosen_view s).
        change (selectedItems s1) with (selectedItems s).
        rewrite Hv, St. now rewrite !derived_view_nothing_chosen.
    + destruct (w_error w); [|exact Hv].
      apply length_zero_empty in Sf. unfold chosen_view. simpl. now rewrite Sf.
  - unfold set_selectedRecords. destruct (_ && _); [|exact Hv]. now apply R.
  - unfold setSelectedRecords. destruct (0 <? _)%nat; [|exact Hv]. now apply R.
  - unfold toggleGroup. simpl. change (chosen_view (set_processedData _ s)) with (chosen_view s).
    rewrite derived_view_map; [exact Hv|].
    intro x. now destruct (strict_eq (groupName x) g).
  - unfold toggleSelectedGroup, chosen_view. simpl. rewrite map_map.
    etransitivity; [|exact Hv]. unfold chosen_view. apply map_ext. intro x.
    now destruct (strict_eq (sg_groupName x) g).
  - apply U. exact Hn'.
  - unfold handleItemSelect. destruct c; [destruct (negb _)|]; exact Hv.
  - unfold moveSelectedToChosen in *. destruct (tempSelectedItems s); [exact Hv|].
    apply U. exact Hn'.
  - unfold moveChosenToAvailable in *. destruct (tempChosenItems s); [exact Hv|].
    apply U. exact Hn'.
  - unfold selectChosenItem. destruct (includes _ _); exact Hv.
  - apply U. exact Hn'.
  - apply U. exact Hn'.
  - unfold resetSelections. simpl. now rewrite derived_view_nothing_chosen.
Qed.

Lemma run_derived (ops : list Op) (s : State) :
  no_stale_delivery s ops = true -> names_ok s ->
  chosen_view s = derived_view (processedData s) (selectedItems s) ->
  chosen_view (run s ops)
  = derived_view (processedData (run s ops)) (selectedItems (run s ops)).
Proof.
  revert s. induction ops as [|o ops IH]; intros s H Hn Hv; simpl; [assumption|].
  simpl in H. apply andb_true_iff in H. destruct H as [H Hr].
  apply andb_true_iff in H. destruct H as [H1 H2].
  apply negb_true_iff in H1. apply negb_true_iff in H2.
  apply IH; [assumption | now apply step_names | now apply step_derived].
Qed.

(** X12. Along every run in which no data is delivered over a selection
    that is not pending for restoration and no fetch fails over chosen
    groups, the chosen side shows the groups with a chosen member in the
    order of the available side, each with its chosen ids in the order of
    the group: the order in which the ids were chosen plays no part. *)
Theorem chosen_side_follows_available_order (gb pv : option string) (ops : list Op) :
  no_stale_delivery (initial gb pv) ops = true ->
  chosen_view (run (initial gb pv) ops)
  = derived_view (processedData (run (initial gb pv) ops))
      (selectedItems (run (initial gb pv) ops)).
Proof.
  intro H. apply run_derived; [assumption | constructor | reflexivity].
Qed.

Lemma chosen_side_follows_available_order_witness :
  no_stale_delivery (initial (Some "Cat") None)
    [load data_A; OpGroupSelect (JStr "Y") true; OpItemSelect (JStr "2") true;
     OpMoveToChosen; OpItemSelect (JStr "1") true; OpMoveToChosen] = true
  /\ chosen_ids (run (initial (Some "Cat") None)
       [load data_A; OpGroupSelect (JStr "Y") true; OpItemSelect (JStr "2") true;
        OpMoveToChosen; OpItemSelect (JStr "1") true; OpMoveToChosen])
     = [JStr "3"; JStr "2"; JStr "1"]
  /\ chosen_view (run (initial (Some "Cat") None)
       [load data_A; OpGroupSelect (JStr "Y") true; OpItemSelect (JStr "2") true;
        OpMoveToChosen; OpItemSelect (JStr "1") true; OpMoveToChosen])
     = [(JStr "X", [JStr "1"; JStr "2"]); (JStr "Y", [JStr "3"])].
Proof.
  split; [reflexivity|]. split; [reflexivity|].
  rewrite (chosen_side_follows_available_order (Some "Cat") None
             [load data_A; OpGroupSelect (JStr "Y") true; OpItemSelect (JStr "2") true;
              OpMoveToChosen; OpItemSelect (JStr "1") true; OpMoveToChosen] eq_refl).
  reflexivity.
Defined.

(** ** Collapsed chosen groups *)

Lemma jsmap_set_values {V : Type} (Q : V -> Prop) (m : jsmap V) (k : jsval) (v : V) :
  Forall (fun e => Q (snd e)) m -> Q v -> Forall (fun e => Q (snd e)) (jsmap_set m k v).
Proof.
  intros H Hv. induction m as [|[k' v'] m IH]; simpl.
  - now repeat constructor.
  - inversion H as [|? ? He Hm]; subst. destruct (strict_eq k' k).
    + now constructor.
    + constructor; [assumption | now apply IH].
Qed.

Lemma update_expanded (s : State) :
  forallb sg_isExpanded (selectedGroupsData (updateSelectedGroupsData s)) = true.
Proof.
  unfold updateSelectedGroupsData. simpl.
  assert (F : forall gs m, Forall (fun e => sg_isExpanded (snd e) = true) m ->
              Forall (fun e => sg_isExpanded (snd e) = true)
                (fold_left (groupsMap_step (selectedItems s)) gs m)).
  { induction gs as [|g gs IH]; intros m Hm; simpl; [assumption|].
    apply IH. unfold groupsMap_step. destruct (0 <? _)%nat; [|assumption].
    now apply (jsmap_set_values (fun v => sg_isExpanded v = true)). }
  apply forallb_forall. intros sg Hsg. apply in_map_iff in Hsg.
  destruct Hsg as [e [<- He]].
  specialize (F (processedData s) [] (Forall_nil _)).
  rewrite Forall_forall in F. now apply F.
Qed.

Lemma restoreSelection_expanded (s : State) :
  _preSelectedRecords s <> [] ->
  forallb sg_isExpanded (selectedGroupsData (restoreSelection s)) = true.
Proof.
  intro H. unfold restoreSelection. destruct (_preSelectedRecords s); [congruence|].
  apply update_expanded.
Qed.

(** X13. Every operation that recomputes the chosen side (the group
    checkbox, a removal, an enabled move, a restoration, the reset) leaves
    every chosen group expanded: a chosen group collapsed with
    [toggleSelectedGroup] is open again after the next such operation. *)
Theorem recomputing_expands_chosen_groups (s : State) (o : Op) :
  recomputes s o = true ->
  forallb sg_isExpanded (selectedGroupsData (step s o)) = true.
Proof.
  unfold recomputes. intro H.
  assert (U : forall x, forallb sg_isExpanded
                (selectedGroupsData (emitSelectionEvent (updateSelectedGroupsData x))) = true)
    by (intro x; exact (update_expanded x)).
  destruct o as [w | v | r | g | g | g c | i c | | | i | i | g | ];
    unfold step; simpl in H; try discriminate; try apply U.
  - unfold wiredData. destruct (w_data w) as [data|]; [|discriminate].
    simpl. rewrite H. apply restoreSelection_expanded. simpl.
    now apply length_pos_nonempty.
  - unfold set_selectedRecords. simpl. rewrite H. apply restoreSelection_expanded.
    simpl. apply andb_true_iff in H. now apply length_pos_nonempty.
  - unfold setSelectedRecords. simpl. apply andb_true_iff in H. destruct H as [H1 H2].
    rewrite H1. apply restoreSelection_expanded. simpl. now apply length_pos_nonempty.
  - unfold isMoveRightDisabled in H. unfold moveSelectedToChosen.
    destruct (tempSelectedItems s); [discriminate | apply U].
  - unfold isMoveLeftDisabled in H. unfold moveChosenToAvailable.
    destruct (tempChosenItems s); [discriminate | apply U].
  - reflexivity.
Qed.

Lemma recomputing_expands_chosen_groups_witness :
  recomputes (run state_B [OpToggleSelectedGroup (JStr "X")]) (OpRemoveItem (JStr "2")) = true
  /\ forallb sg_isExpanded
       (selectedGroupsData (run state_B [OpToggleSelectedGroup (JStr "X")])) = false
  /\ forallb sg_isExpanded
       (selectedGroupsData
          (step (run state_B [OpToggleSelectedGroup (JStr "X")]) (OpRemoveItem (JStr "2"))))
     = true.
Proof.
  split; [reflexivity|]. split; [reflexivity|].
  exact (recomputing_expands_chosen_groups
           (run state_B [OpToggleSelectedGroup (JStr "X")]) (OpRemoveItem (JStr "2")) eq_refl).
Defined.

(** ** Flags and counters *)

Lemma in_sync_flags_okb (s : State) : in_sync s -> flags_okb s = true.
Proof.
  intros [Hg Hn]. unfold flags_okb. apply andb_true_iff. split.
  - apply forallb_forall. intros g Hin. destruct (Hg g Hin) as [Hne Hall Hfl].
    apply andb_true_iff. split; [apply andb_true_iff; split|].
    + now apply length_pos_nonempty.
    + rewrite Hall. apply Bool.eqb_reflx.
    + apply forallb_forall. intros it Hit. rewrite (Hfl it Hit). apply Bool.eqb_reflx.
  - now apply distinct_NoDup.
Qed.

(** X14. Along every run in which the deliveries carry distinct ids and no
    data is delivered over a selection that is not pending for restoration,
    the available side agrees with the selection after every operation: an
    item is flagged exactly when its id is chosen, [isAllSelected] is on
    exactly for the non-empty groups whose members are all chosen, no group
    is empty and no id is loaded twice. *)
Theorem flags_follow_selection (gb pv : option string) (ops : list Op) :
  no_stale_load (initial gb pv) ops = true ->
  flags_okb (run (initial gb pv) ops) = true
  /\ rollup_okb (run (initial gb pv) ops) = true.
Proof.
  intro H.
  assert (S : in_sync (run (initial gb pv) ops))
    by (apply run_in_sync; [assumption | apply initial_in_sync]).
  split; [now apply in_sync_flags_okb|].
  apply rollup_okb_ok. now apply in_sync_rollup.
Qed.

Lemma flags_follow_selection_witness :
  no_stale_load (initial (Some "Cat") None)
    [load data_A; OpItemSelect (JStr "1") true; OpMoveToChosen;
     OpGroupSelect (JStr "Y") true; OpRemoveItem (JStr "3");
     OpSetSelectedRecords (Some pre_21); load data_A] = true
  /\ flags_okb (run (initial (Some "Cat") None)
       [load data_A; OpItemSelect (JStr "1") true; OpMoveToChosen;
        OpGroupSelect (JStr "Y") true; OpRemoveItem (JStr "3");
        OpSetSelectedRecords (Some pre_21); load data_A]) = true.
Proof.
  split; [reflexivity|].
  exact (proj1 (flags_follow_selection (Some "Cat") None
           [load data_A; OpItemSelect (JStr "1") true; OpMoveToChosen;
            OpGroupSelect (JStr "Y") true; OpRemoveItem (JStr "3");
            OpSetSelectedRecords (Some pre_21); load data_A] eq_refl)).
Defined.

Lemma filter_split_length {A : Type} (p : A -> bool) (l : list A) :
  List.length (filter (fun x => negb (p x)) l) + List.length (filter p l) = List.length l.
Proof.
  induction l as [|a l IH]; simpl; [reflexivity|].
  destruct (p a); simpl; [rewrite Nat.add_succ_r|]; now rewrite IH.
Qed.

Lemma availableCount_unflagged (s : State) :
  availableCount s
  = List.length (filter (fun item => negb (isSelected item)) (all_items (processedData s))).
Proof.
  unfold availableCount, all_items.
  assert (G : forall gs n,
             fold_left
               (fun count group =>
                  count + List.length (filter (fun item => negb (isSelected item)) (items group)))
               gs n
             = n + List.length (filter (fun item => negb (isSelected item)) (flat_map items gs))).
  { induction gs as [|g gs IH]; intro n; simpl; [now rewrite Nat.add_0_r|].
    now rewrite IH, filter_app, length_app, Nat.add_assoc. }
  now rewrite G.
Qed.

Lemma in_all_items (gs : list Group) (it : Item) :
  In it (all_items gs) -> exists g, In g gs /\ In it (items g).
Proof. unfold all_items. intro H. now apply in_flat_map in H. Qed.

(** X15. The two counters of the template add up.  Along a run in which
    no delivery and no restored list names an id twice and no delivery is
    stale, whenever every chosen id belongs to a loaded item,
    [availableCount] plus [selectedCount] is the number of loaded items. *)
Theorem counters_add_up (gb pv : option string) (ops : list Op) :
  no_stale_load (initial gb pv) ops = true ->
  forallb op_distinct ops = true ->
  forallb (known (processedData (run (initial gb pv) ops)))
    (chosen_ids (run (initial gb pv) ops)) = true ->
  availableCount (run (initial gb pv) ops) + selectedCount (run (initial gb pv) ops)
  = List.length (all_items (processedData (run (initial gb pv) ops))).
Proof.
  intros Hs Hd Hk.
  assert (S : in_sync (run (initial gb pv) ops))
    by (apply run_in_sync; [assumption | apply initial_in_sync]).
  assert (D : dup_free (run (initial gb pv) ops))
    by (apply run_dup_free; [assumption | apply initial_dup_free]).
  set (s := run (initial gb pv) ops) in *.
  destruct S as [Hg Hn]. destruct D as [Hc _ _ _].
  rewrite availableCount_unflagged, <- (filter_split_length isSelected (all_items (processedData s))).
  f_equal. unfold selectedCount.
  rewrite (filter_ext_in isSelected (fun it => is_chosen (selectedItems s) (id it))).
  - rewrite <- (length_map id), <- filter_map_swap, <- all_ids_items.
    rewrite <- (length_map sel_id (selectedItems s)). fold (chosen_ids s).
    apply Permutation_length. apply NoDup_Permutation.
    + assumption.
    + now apply NoDup_filter.
    + intro x. rewrite filter_In, is_chosen_In. fold (chosen_ids s). split.
      * intro Hx. split; [|assumption]. rewrite forallb_forall in Hk.
        specialize (Hk x Hx). unfold known in Hk. apply includes_In in Hk.
        now rewrite all_ids_items.
      * intros [_ Hx]. exact Hx.
  - intros it Hit. apply in_all_items in Hit. destruct Hit as [g [Hin Hit]].
    now apply (gs_flags _ _ (Hg g Hin)).
Qed.

Lemma counters_add_up_witness :
  no_stale_load (initial (Some "Cat") None)
    [load data_A; OpItemSelect (JStr "1") true; OpMoveToChosen] = true
  /\ forallb op_distinct [load data_A; OpItemSelect (JStr "1") true; OpMoveToChosen] = true
  /\ availableCount (run (initial (Some "Cat") None)
       [load data_A; OpItemSelect (JStr "1") true; OpMoveToChosen])
     + selectedCount (run (initial (Some "Cat") None)
         [load data_A; OpItemSelect (JStr "1") true; OpMoveToChosen])
     = 3.
Proof.
  split; [reflexivity|]. split; [reflexivity|].
  exact (counters_add_up (Some "Cat") None
           [load data_A; OpItemSelect (JStr "1") true; OpMoveToChosen]
           eq_refl eq_refl eq_refl).
Defined.

(** ** Deliveries *)

(** X16. A delivery replaces the grouping wholesale and is idempotent: the
    state after [wiredData] does not depend on the groups loaded before,
    and the same delivery once more changes nothing (in particular it does
    not bring stale flags in line with the selection). *)
Theorem wiredData_replaces_and_repeats (s : State) :
  (forall e data pd,
     wiredData (mkWire e (Some data)) (set_processedData pd s)
     = wiredData (mkWire e (Some data)) s)
  /\ (forall w, wiredData w (wiredData w s) = wiredData w s).
Proof.
  split; [reflexivity|].
  intro w. unfold wiredData. destruct (w_data w) as [data|].
  - simpl. destruct (_preSelectedRecords s) as [|r pre] eqn:E; simpl.
    + rewrite E. reflexivity.
    + unfold restoreSelection. simpl. rewrite E. simpl. rewrite E. reflexivity.
  - now destruct (w_error w).
Qed.

(** ** Restoring over a stale available side *)

Lemma run_names (ops : list Op) (s : State) : names_ok s -> names_ok (run s ops).
Proof.
  revert s. induction ops as [|o ops IH]; intros s H; simpl; [assumption|].
  apply IH. now apply step_names.
Qed.

Lemma nonempty_by_shape (gs gs' : list Group) :
  shape gs' = shape gs ->
  (forall g, In g gs -> items g <> []) -> forall g, In g gs' -> items g <> [].
Proof.
  revert gs'. induction gs as [|a gs IH]; intros [|a' gs'] E H g Hg;
    simpl in *; try discriminate; [contradiction|].
  inversion E as [[En Ei Er]]. destruct Hg as [<-|Hg].
  - intro Hc. apply (H a (or_introl eq_refl)). unfold group_ids in Ei.
    rewrite Hc in Ei. simpl in Ei. symmetry in Ei. now apply map_eq_nil in Ei.
  - apply (IH gs' Er); [|assumption]. intros x Hx. apply H. now right.
Qed.

Lemma step_nonempty (s : State) (o : Op) :
  (forall g, In g (processedData s) -> items g <> []) ->
  forall g, In g (processedData (step s o)) -> items g <> [].
Proof.
  intro H. pose proof (step_shape s o) as Hs.
  destruct o as [w| | | | | | | | | | | | ];
    try (now apply (nonempty_by_shape (processedData s))).
  unfold step, wiredData. destruct (w_data w) as [data|].
  - set (s1 := processQueryResults (Some data) _).
    assert (N : forall g, In g (processedData s1) -> items g <> [])
      by (intros g Hg; now apply (processQueryResults_fresh data _ g Hg)).
    destruct (0 <? _)%nat; [|assumption].
    destruct (restoreSelection_rest s1) as [_ [_ [_ [Es _]]]].
    now apply (nonempty_by_shape (processedData s1)).
  - destruct (w_error w); [intros g [] | assumption].
Qed.

Lemma run_nonempty (ops : list Op) (s : State) :
  (forall g, In g (processedData s) -> items g <> []) ->
  forall g, In g (processedData (run s ops)) -> items g <> [].
Proof.
  revert s. induction ops as [|o ops IH]; intros s H; simpl; [assumption|].
  apply IH. now apply step_nonempty.
Qed.

(** X17. [setSelectedRecords] with a non-empty list, called once data is
    loaded, brings both sides in line with the list whatever happened
    before (stale deliveries included): the selection is the list, every
    [isAllSelected] is on exactly for the groups whose members are all in
    it, the chosen side is the partition of the selection over the loaded
    groups; and no event is dispatched. *)
Theorem setSelectedRecords_synchronizes
    (gb pv : option string) (ops : list Op) (X : list jsobj) :
  (0 <? List.length (processedData (run (initial gb pv) ops)))%nat = true ->
  (0 <? List.length X)%nat = true ->
  chosen_ids (setSelectedRecords (Some X) (run (initial gb pv) ops)) = record_ids X
  /\ rollup_okb (setSelectedRecords (Some X) (run (initial gb pv) ops)) = true
  /\ view_ok (setSelectedRecords (Some X) (run (initial gb pv) ops))
  /\ dispatched (setSelectedRecords (Some X) (run (initial gb pv) ops))
     = dispatched (run (initial gb pv) ops).
Proof.
  intros Hp HX.
  assert (Hn : names_ok (run (initial gb pv) ops)) by (apply run_names; constructor).
  assert (He : forall g, In g (processedData (run (initial gb pv) ops)) -> items g <> [])
    by (apply run_nonempty; intros g []).
  set (s := run (initial gb pv) ops) in *.
  unfold setSelectedRecords. simpl. rewrite Hp.
  destruct X as [|x X]; [discriminate|].
  set (s1 := set_preSelectedRecords (x :: X) s).
  split; [apply (restoreSelection_chosen s1); discriminate|].
  split; [|split; [|exact (restoreSelection_dispatched s1)]].
  - assert (P : processedData (restoreSelection s1)
                = map (restore_group (map (fun record => get record "id") (x :: X)))
                    (processedData s)) by reflexivity.
    assert (Q : selectedItems (restoreSelection s1)
                = map (fun record => mkSelectedItem (get record "name") (get record "id"))
                    (x :: X)) by reflexivity.
    unfold rollup_okb. rewrite P, Q. apply forallb_forall.
    intros g' Hg'. apply in_map_iff in Hg'. destruct Hg' as [g [<- Hg]].
    rewrite (group_sync_rollup _ _ (restore_group_sync (x :: X) g (He g Hg))).
    apply Bool.eqb_reflx.
  - unfold restoreSelection. simpl. apply updateSelectedGroupsData_view.
    unfold names_ok. simpl. rewrite names_shape, shape_restore, <- names_shape.
    exact Hn.
Qed.

Lemma setSelectedRecords_synchronizes_witness :
  (0 <? List.length
          (processedData
             (run (initial (Some "Cat") None)
                [load data_A; OpGroupSelect (JStr "Y") true; load data_A])))%nat = true
  /\ rollup_okb
       (run (initial (Some "Cat") None)
          [load data_A; OpGroupSelect (JStr "Y") true; load data_A]) = false
  /\ rollup_okb
       (setSelectedRecords (Some [[("id", JStr "3"); ("name", JStr "C")]])
          (run (initial (Some "Cat") None)
             [load data_A; OpGroupSelect (JStr "Y") true; load data_A])) = true.
Proof.
  split; [reflexivity|]. split; [reflexivity|].
  exact (proj1 (proj2
           (setSelectedRecords_synchronizes (Some "Cat") None
              [load data_A; OpGroupSelect (JStr "Y") true; load data_A]
              [[("id", JStr "3"); ("name", JStr "C")]] eq_refl eq_refl))).
Defined.

(** ** Collapsing and expanding *)

Lemma icons_kept (f : Group -> Group) (pd : list Group) :
  (forall g, isExpanded (f g) = isExpanded g /\ toggleIcon (f g) = toggleIcon g
             /\ itemsClass (f g) = itemsClass g) ->
  Forall icons_match pd -> Forall icons_match (map f pd).
Proof.
  intros Hf H. rewrite Forall_forall in *. intros g' Hg'.
  apply in_map_iff in Hg'. destruct Hg' as [g [<- Hg]].
  destruct (Hf g) as [E1 [E2 E3]]. unfold icons_match. rewrite E1, E2, E3.
  now apply H.
Qed.

Lemma icons_flipped (group : jsval) (pd : list Group) :
  Forall icons_match pd ->
  Forall icons_match
    (map (fun g => if strict_eq (groupName g) group then flip_expanded g else g) pd).
Proof.
  intro H. rewrite Forall_forall in *. intros g' Hg'.
  apply in_map_iff in Hg'. destruct Hg' as [g [<- Hg]].
  destruct (strict_eq (groupName g) group); [now split | now apply H].
Qed.

Lemma update_icons (s : State) :
  Forall sg_icons_match (selectedGroupsData (updateSelectedGroupsData s)).
Proof.
  unfold updateSelectedGroupsData. simpl.
  assert (F : forall gs m, Forall (fun e => sg_icons_match (snd e)) m ->
              Forall (fun e => sg_icons_match (snd e))
                (fold_left (groupsMap_step (selectedItems s)) gs m)).
  { induction gs as [|g gs IH]; intros m Hm; simpl; [assumption|].
    apply IH. unfold groupsMap_step. destruct (0 <? _)%nat; [|assumption].
    apply (jsmap_set_values sg_icons_match); [assumption | now split]. }
  specialize (F (processedData s) [] (Forall_nil _)).
  rewrite Forall_forall in *. intros sg Hsg. apply in_map_iff in Hsg.
  destruct Hsg as [e [<- He]]. now apply F.
Qed.

Lemma restoreSelection_icons (s : State) : icons_ok s -> icons_ok (restoreSelection s).
Proof.
  intros [Hp Hg]. unfold restoreSelection. destruct (_preSelectedRecords s); [now split|].
  split; [|apply update_icons]. simpl. apply icons_kept; [|assumption].
  intro g. now repeat split.
Qed.

Lemma recompute_icons (h : Item -> Item) (pd : list Group) :
  Forall icons_match pd -> Forall icons_match (map (recompute_all h) pd).
Proof. apply icons_kept. intro g. now repeat split. Qed.

Lemma step_icons (s : State) (o : Op) : icons_ok s -> icons_ok (step s o).
Proof.
  intros [Hp Hg].
  assert (M : forall group c, Forall icons_match (map (mark_group group c) (processedData s))).
  { intros group c. apply icons_kept; [|assumption]. intro g. unfold mark_group.
    destruct (strict_eq (groupName g) group); now repeat split. }
  destruct o as [w | v | r | g | g | g c | i c | | | i | i | g | ]; unfold step.
  - unfold wiredData. destruct (w_data w) as [data|].
    + set (s1 := processQueryResults (Some data) _).
      assert (I : icons_ok s1).
      { split; [|exact Hg]. unfold s1, processQueryResults. simpl.
        apply Forall_forall. intros g Hin. apply in_map_iff in Hin.
        destruct Hin as [e [<- _]]. now split. }
      destruct (0 <? _)%nat; [now apply restoreSelection_icons | assumption].
    + destruct (w_error w); split; simpl; try assumption. constructor.
  - unfold set_selectedRecords.
    destruct (_ && _); [apply restoreSelection_icons|]; now split.
  - unfold setSelectedRecords.
    destruct (0 <? _)%nat; [apply restoreSelection_icons|]; now split.
  - split; [|exact Hg]. now apply icons_flipped.
  - split; [exact Hp|]. unfold toggleSelectedGroup. simpl.
    rewrite Forall_forall in *. intros g' Hg'.
    apply in_map_iff in Hg'. destruct Hg' as [x [<- Hx]].
    destruct (strict_eq (sg_groupName x) g); [now split | now apply Hg].
  - split; [rewrite processedData_handleGroupSelect; apply M|].
    unfold handleGroupSelect. apply update_icons.
  - unfold handleItemSelect. destruct c; [destruct (negb _)|]; now split.
  - unfold moveSelectedToChosen. destruct (tempSelectedItems s); [now split|].
    split; [|apply update_icons]. simpl. now apply recompute_icons.
  - unfold moveChosenToAvailable. destruct (tempChosenItems s); [now split|].
    split; [|apply update_icons]. simpl. now apply recompute_icons.
  - unfold selectChosenItem. destruct (includes _ _); now split.
  - split; [|apply update_icons]. unfold removeItem. simpl. now apply recompute_icons.
  - rewrite removeGroup_handleGroupSelect.
    split; [rewrite processedData_handleGroupSelect; apply M|].
    unfold handleGroupSelect. apply update_icons.
  - split; [|constructor]. unfold resetSelections. simpl.
    apply icons_kept; [|assumption]. intro g. now repeat split.
Qed.

Lemma run_icons (ops : list Op) (s : State) : icons_ok s -> icons_ok (run s ops).
Proof.
  revert s. induction ops as [|o ops IH]; intros s H; simpl; [assumption|].
  apply IH. now apply step_icons.
Qed.

Lemma flip_expanded_twice (g : Group) :
  icons_match g -> flip_expanded (flip_expanded g) = g.
Proof.
  destruct g as [n its e a icon cls]. unfold icons_match, flip_expanded. simpl.
  intros [-> ->]. now destruct e.
Qed.

Lemma flip_sg_expanded_twice (g : SelectedGroup) :
  sg_icons_match g -> flip_sg_expanded (flip_sg_expanded g) = g.
Proof.
  destruct g as [n its e icon cls]. unfold sg_icons_match, flip_sg_expanded. simpl.
  intros [-> ->]. now destruct e.
Qed.

(** X18. In every state the component can reach, collapsing or expanding a
    group twice gives back the very same state, on the available side
    ([toggleGroup]) and on the chosen side ([toggleSelectedGroup]). *)
Theorem toggle_twice_is_identity (gb pv : option string) (ops : list Op) (group : jsval) :
  toggleGroup group (toggleGroup group (run (initial gb pv) ops)) = run (initial gb pv) ops
  /\ toggleSelectedGroup group (toggleSelectedGroup group (run (initial gb pv) ops))
     = run (initial gb pv) ops.
Proof.
  destruct (run_icons ops (initial gb pv)) as [Hp Hg]; [split; constructor|].
  set (s := run (initial gb pv) ops) in *. rewrite Forall_forall in Hp, Hg.
  split.
  - unfold toggleGroup. simpl. rewrite map_map.
    rewrite (map_ext_in _ (fun g => g)).
    + rewrite map_id. now destruct s.
    + intros g Hin. destruct (strict_eq (groupName g) group) eqn:E; simpl.
      * change (groupName (flip_expanded g)) with (groupName g). rewrite E.
        apply flip_expanded_twice. now apply Hp.
      * now rewrite E.
  - unfold toggleSelectedGroup. simpl. rewrite map_map.
    rewrite (map_ext_in _ (fun g => g)).
    + rewrite map_id. now destruct s.
    + intros g Hin. destruct (strict_eq (sg_groupName g) group) eqn:E; simpl.
      * change (sg_groupName (flip_sg_expanded g)) with (sg_groupName g). rewrite E.
        apply flip_sg_expanded_twice. now apply Hg.
      * now rewrite E.
Qed.

(** ** The two ways to hand over a selection *)

(** X19. Assigning the [selectedRecords] property and calling
    [setSelectedRecords] are the same operation: for every value and every
    state they return the same state (the extra test of the setter only
    skips a restoration that would return at once). *)
Theorem selectedRecords_setter_is_setSelectedRecords
    (value : option (list jsobj)) (s : State) :
  set_selectedRecords value s = setSelectedRecords value s.
Proof.
  unfold set_selectedRecords, setSelectedRecords. simpl.
  destruct (0 <? List.length (processedData s))%nat; simpl; [|reflexivity].
  destruct (or_empty value) as [|r l] eqn:E; simpl; [|reflexivity].
  now rewrite restoreSelection_nothing.
Qed.
